(** * MyRedis [dict.c]: a shallow embedding of the incrementally rehashed
      hash table and the verification of its specification.

    The C program manipulates a pointer structure: bucket arrays of entry
    pointers and singly linked chains of [dictEntry] nodes.  The embedding
    keeps that structure.  Addresses are integers ([0] is [NULL]), the chain
    nodes live in a finite map from addresses to [dictEntry] records, the
    bucket arrays in a finite map from addresses to lists of pointers, and
    every function of [dict.c] becomes a function on an explicit machine
    state.  The allocator of [zmalloc.c] is a bump allocator on that state
    whose requests succeed.  A computation ends in [Done], or in one of three abnormal
    outcomes: [Segv] (an access through [NULL], a dangling pointer or an
    index outside its array), [Aborted] (a failed [redis_assert]) and
    [Exhausted] (a chain walk that did not reach [NULL] within as many steps
    as there are nodes in memory).

    Integer types follow the LP64 data model of the platform the code is
    written for: [int] and [unsigned int] have 32 bits, [long],
    [unsigned long] and [long long] have 64 bits. *)

From Stdlib Require Import ZArith Lia Bool.
From stdpp Require Import base option list gmap.

Local Open Scope Z_scope.

(** ** Machine integers *)

Definition wrap_uint (z : Z) : Z := z mod 2 ^ 32.
Definition wrap_int (z : Z) : Z := (z + 2 ^ 31) mod 2 ^ 32 - 2 ^ 31.
Definition wrap_ulong (z : Z) : Z := z mod 2 ^ 64.
Definition wrap_llong (z : Z) : Z := (z + 2 ^ 63) mod 2 ^ 64 - 2 ^ 63.

Definition UINT32_MAX : Z := 4294967295.

(** ** Constants of [dict.h] and [dict.c] *)

Definition DICT_OK : Z := 0.
Definition DICT_ERR : Z := 1.
Definition DICT_HT_INITIAL_SIZE : Z := 4.
Definition dict_force_resize_ratio : Z := 5.

(** ** Outcomes *)

Inductive result (A : Type) : Type :=
| Done (a : A)
| Segv
| Aborted
| Exhausted.

Arguments Done {A} a.
Arguments Segv {A}.
Arguments Aborted {A}.
Arguments Exhausted {A}.

#[global] Instance result_ret : MRet result := fun A a => Done a.
#[global] Instance result_bind : MBind result := fun A B k r =>
  match r with
  | Done a => k a
  | Segv => Segv
  | Aborted => Aborted
  | Exhausted => Exhausted
  end.

(** Modelled from the spec: [redis_assert], the macro of [redis_assert.h],
    a header that is not among the sources.  It is the fatal-assertion
    capability, which "always terminates the process when triggered". *)
Definition redis_assert (c : bool) : result unit :=
  if c then Done tt else Aborted.

(** ** Data model ([dict.h]) *)

(** [dictEntry]: the value is the union member [v.val]. *)
Record dictEntry : Type := DictEntry {
  key : Z;
  v_val : Z;
  next : Z
}.

(** [dictType]: the callbacks.  A missing callback is [None] (or [false]
    for the two destructors, whose calls are recorded in the state). *)
Record dictType : Type := DictType {
  hashFunction : Z -> Z;
  keyDup : option (Z -> Z -> Z);
  valDup : option (Z -> Z -> Z);
  keyCompare : option (Z -> Z -> Z -> bool);
  keyDestructor : bool;
  valDestructor : bool
}.

Record dictht : Type := Dictht {
  table : Z;
  size : Z;
  sizemask : Z;
  used : Z
}.

Record dict : Type := Dict {
  type : dictType;
  privdata : Z;
  ht0 : dictht;
  ht1 : dictht;
  rehashidx : Z;
  iterators : Z
}.

Record dictIterator : Type := DictIterator {
  it_table : Z;
  it_index : Z;
  it_safe : Z;
  it_entry : Z;
  it_nextEntry : Z;
  it_fingerprint : Z
}.

(** The machine state: the dict under operation, the heap of chain nodes,
    the heap of bucket arrays, the allocation frontier, the content of
    memory that [malloc] hands out uninitialised, the process-wide flag
    [dict_can_resize], and the arguments the key and value destructors have
    been called with, oldest first. *)
Record state : Type := State {
  dct : dict;
  entries : gmap Z dictEntry;
  arrays : gmap Z (list Z);
  brk : positive;
  junk : Z;
  dict_can_resize : bool;
  key_freed : list Z;
  val_freed : list Z
}.

(** *** Field updates *)

Definition set_next (e : dictEntry) (p : Z) : dictEntry :=
  DictEntry (key e) (v_val e) p.
Definition set_key (e : dictEntry) (k : Z) : dictEntry :=
  DictEntry k (v_val e) (next e).
Definition set_val (e : dictEntry) (v : Z) : dictEntry :=
  DictEntry (key e) v (next e).

Definition set_used (h : dictht) (u : Z) : dictht :=
  Dictht (table h) (size h) (sizemask h) u.

Definition set_ht0 (dd : dict) (h : dictht) : dict :=
  Dict (type dd) (privdata dd) h (ht1 dd) (rehashidx dd) (iterators dd).
Definition set_ht1 (dd : dict) (h : dictht) : dict :=
  Dict (type dd) (privdata dd) (ht0 dd) h (rehashidx dd) (iterators dd).
Definition set_rehashidx (dd : dict) (i : Z) : dict :=
  Dict (type dd) (privdata dd) (ht0 dd) (ht1 dd) i (iterators dd).
Definition set_iterators (dd : dict) (i : Z) : dict :=
  Dict (type dd) (privdata dd) (ht0 dd) (ht1 dd) (rehashidx dd) i.

Definition set_dct (st : state) (dd : dict) : state :=
  State dd (entries st) (arrays st) (brk st) (junk st) (dict_can_resize st)
        (key_freed st) (val_freed st).
Definition set_entries (st : state) (m : gmap Z dictEntry) : state :=
  State (dct st) m (arrays st) (brk st) (junk st) (dict_can_resize st)
        (key_freed st) (val_freed st).
Definition set_arrays (st : state) (m : gmap Z (list Z)) : state :=
  State (dct st) (entries st) m (brk st) (junk st) (dict_can_resize st)
        (key_freed st) (val_freed st).
Definition set_brk (st : state) (b : positive) : state :=
  State (dct st) (entries st) (arrays st) b (junk st) (dict_can_resize st)
        (key_freed st) (val_freed st).
Definition set_can_resize (st : state) (b : bool) : state :=
  State (dct st) (entries st) (arrays st) (brk st) (junk st) b
        (key_freed st) (val_freed st).
Definition log_key_freed (st : state) (k : Z) : state :=
  State (dct st) (entries st) (arrays st) (brk st) (junk st) (dict_can_resize st)
        (key_freed st ++ [k]) (val_freed st).
Definition log_val_freed (st : state) (v : Z) : state :=
  State (dct st) (entries st) (arrays st) (brk st) (junk st) (dict_can_resize st)
        (key_freed st) (val_freed st ++ [v]).

(** [d->ht[t]] for a table number [t]. *)
Definition ht (dd : dict) (t : Z) : dictht := if t =? 0 then ht0 dd else ht1 dd.
Definition set_ht (dd : dict) (t : Z) (h : dictht) : dict :=
  if t =? 0 then set_ht0 dd h else set_ht1 dd h.

(** *** Memory accesses *)

(** [*p] for an entry pointer. *)
Definition load_entry (st : state) (p : Z) : result dictEntry :=
  if p =? 0 then Segv
  else match entries st !! p with
       | Some e => Done e
       | None => Segv
       end.

(** [*p = e]. *)
Definition store_entry (st : state) (p : Z) (e : dictEntry) : result state :=
  if p =? 0 then Segv
  else match entries st !! p with
       | Some _ => Done (set_entries st (<[p := e]> (entries st)))
       | None => Segv
       end.

(** [tbl[i]]. *)
Definition load_slot (st : state) (tbl i : Z) : result Z :=
  match arrays st !! tbl with
  | Some arr =>
      if i <? 0 then Segv
      else match arr !! Z.to_nat i with
           | Some p => Done p
           | None => Segv
           end
  | None => Segv
  end.

(** [tbl[i] = p]. *)
Definition store_slot (st : state) (tbl i p : Z) : result state :=
  match arrays st !! tbl with
  | Some arr =>
      if i <? 0 then Segv
      else match arr !! Z.to_nat i with
           | Some _ => Done (set_arrays st (<[tbl := <[Z.to_nat i := p]> arr]> (arrays st)))
           | None => Segv
           end
  | None => Segv
  end.

(** [zcalloc(n * sizeof(dictEntry * ))]: a fresh array of [n] null
    pointers.  Allocation succeeds (on failure the allocator's handler
    ends the process). *)
Definition zcalloc_table (st : state) (n : Z) : state * Z :=
  let a := Z.pos (brk st) in
  (set_brk (set_arrays st (<[a := replicate (Z.to_nat n) 0]> (arrays st)))
           (brk st + Z.to_pos (8 * n)),
   a).

(** [ZMALLOC(1, dictEntry)]: a fresh node whose three fields hold whatever
    the memory held. *)
Definition zmalloc_entry (st : state) : state * Z :=
  let a := Z.pos (brk st) in
  (set_brk (set_entries st (<[a := DictEntry (junk st) (junk st) (junk st)]> (entries st)))
           (brk st + 24),
   a).

(** [zfree] of a bucket array and of a node; [zfree(NULL)] does nothing. *)
Definition zfree_table (st : state) (tbl : Z) : state :=
  if tbl =? 0 then st else set_arrays st (delete tbl (arrays st)).
Definition zfree_entry (st : state) (p : Z) : state :=
  if p =? 0 then st else set_entries st (delete p (entries st)).

(** The bound on a chain walk: one more than the number of nodes. *)
Definition chain_fuel (st : state) : nat := S (base.size (entries st)).

(** ** Macros of [dict.h] *)

Definition dictIsRehashing (dd : dict) : bool := negb (rehashidx dd =? -1).
Definition dictSize (dd : dict) : Z := wrap_ulong (used (ht0 dd) + used (ht1 dd)).
Definition dictSlots (dd : dict) : Z := wrap_ulong (size (ht0 dd) + size (ht1 dd)).
Definition dictHashKey (dd : dict) (k : Z) : Z := wrap_uint (hashFunction (type dd) k).
Definition dictCompareKeys (dd : dict) (k1 k2 : Z) : bool :=
  match keyCompare (type dd) with
  | Some f => f (privdata dd) k1 k2
  | None => k1 =? k2
  end.
Definition dictGetVal (e : dictEntry) : Z := v_val e.

Definition dictSetKey (st : state) (p k : Z) : result state :=
  e ← load_entry st p;
  store_entry st p
    (set_key e (match keyDup (type (dct st)) with
                | Some f => f (privdata (dct st)) k
                | None => k
                end)).

Definition dictSetVal (st : state) (p v : Z) : result state :=
  e ← load_entry st p;
  store_entry st p
    (set_val e (match valDup (type (dct st)) with
                | Some f => f (privdata (dct st)) v
                | None => v
                end)).

(** [dictFreeKey] and [dictFreeVal] read the field of the entry they are
    handed and pass it to the destructor, when there is one. *)
Definition dictFreeKey (st : state) (e : dictEntry) : state :=
  if keyDestructor (type (dct st)) then log_key_freed st (key e) else st.
Definition dictFreeVal (st : state) (e : dictEntry) : state :=
  if valDestructor (type (dct st)) then log_val_freed st (v_val e) else st.

(** ** Creation, sizing and expansion *)

Definition _dictReset : dictht := Dictht 0 0 0 0.

(** [dictCreate] / [_dictInit]: both tables reset, no rehash, no iterator. *)
Definition dictCreate (ty : dictType) (privDataPtr : Z) (st : state) : state :=
  set_dct st (Dict ty privDataPtr _dictReset _dictReset (-1) 0).

Definition _dictNextPower (sz : Z) : Z :=
  if sz <? DICT_HT_INITIAL_SIZE then DICT_HT_INITIAL_SIZE
  else if sz >? UINT32_MAX then UINT32_MAX
  else
    let s := wrap_ulong (sz - 1) in
    let s := Z.lor s (Z.shiftr s 1) in
    let s := Z.lor s (Z.shiftr s 2) in
    let s := Z.lor s (Z.shiftr s 4) in
    let s := Z.lor s (Z.shiftr s 8) in
    let s := Z.lor s (Z.shiftr s 16) in
    wrap_ulong (s + 1).

Definition dictExpand (st : state) (sz : Z) : state * Z :=
  let realsize := _dictNextPower sz in
  if dictIsRehashing (dct st) || (used (ht0 (dct st)) >? sz) then (st, DICT_ERR)
  else
    let '(st1, tbl) := zcalloc_table st realsize in
    let n := Dictht tbl realsize (wrap_ulong (realsize - 1)) 0 in
    if table (ht0 (dct st1)) =? 0
    then (set_dct st1 (set_ht0 (dct st1) n), DICT_OK)
    else (set_dct st1 (set_rehashidx (set_ht1 (dct st1) n) 0), DICT_OK).

(** [minimal] is an [int]. *)
Definition dictResize (st : state) : state * Z :=
  if negb (dict_can_resize st) || dictIsRehashing (dct st) then (st, DICT_ERR)
  else
    let minimal := wrap_int (used (ht0 (dct st))) in
    let minimal := if minimal <? DICT_HT_INITIAL_SIZE then DICT_HT_INITIAL_SIZE else minimal in
    dictExpand st (wrap_ulong minimal).

Definition dictEnableResize (st : state) : state := set_can_resize st true.
Definition dictDisableResize (st : state) : state := set_can_resize st false.

(** ** Incremental rehashing *)

(** [while (d->ht[0].table[d->rehashidx] == NULL) d->rehashidx++;]
    The walk leaves the array after at most [length arr] increments, so the
    recursion bound is never the reason for stopping. *)
Fixpoint skip_empty (fuel : nat) (arr : list Z) (idx : Z) : result Z :=
  match fuel with
  | O => Segv
  | S f =>
      if idx <? 0 then Segv
      else match arr !! Z.to_nat idx with
           | None => Segv
           | Some p => if p =? 0 then skip_empty f arr (wrap_int (idx + 1)) else Done idx
           end
  end.

(** [while (de) { ... }]: every node of the bucket is linked at the head of
    its bucket in table 1. *)
Fixpoint rehash_bucket (fuel : nat) (st : state) (de : Z) : result state :=
  match fuel with
  | O => Exhausted
  | S f =>
      if de =? 0 then Done st
      else
        e ← load_entry st de;
        let nextde := next e in
        let h := wrap_uint (Z.land (dictHashKey (dct st) (key e))
                                   (sizemask (ht1 (dct st)))) in
        head ← load_slot st (table (ht1 (dct st))) h;
        st1 ← store_entry st de (set_next e head);
        st2 ← store_slot st1 (table (ht1 (dct st1))) h de;
        let dd := dct st2 in
        let dd := set_ht0 dd (set_used (ht0 dd) (wrap_ulong (used (ht0 dd) - 1))) in
        let dd := set_ht1 dd (set_used (ht1 dd) (wrap_ulong (used (ht1 dd) + 1))) in
        rehash_bucket f (set_dct st2 dd) nextde
  end.

(** One bucket migration, the part of the body of [while (n--)] that
    follows the completion test: the assertion, the skipping of empty
    buckets, the move of the chain, the clearing of the bucket and the
    increment of [rehashidx]. *)
Definition rehash_migrate (st : state) : result state :=
  let dd := dct st in
  _ ← redis_assert (wrap_uint (rehashidx dd) <? size (ht0 dd));
  match arrays st !! table (ht0 dd) with
  | None => Segv
  | Some arr =>
      idx ← skip_empty (S (length arr)) arr (rehashidx dd);
      let st0 := set_dct st (set_rehashidx dd idx) in
      de ← load_slot st0 (table (ht0 dd)) idx;
      st1 ← rehash_bucket (chain_fuel st0) st0 de;
      st2 ← store_slot st1 (table (ht0 (dct st1))) (rehashidx (dct st1)) 0;
      Done (set_dct st2 (set_rehashidx (dct st2) (wrap_int (rehashidx (dct st2) + 1))))
  end.

(** The loop [while (n--)].  The function has no [return] after the loop:
    when the loop runs out, control reaches the closing brace and the
    caller receives no value ([None]). *)
Fixpoint rehash_steps (n : nat) (st : state) : result (state * option Z) :=
  match n with
  | O => Done (st, None)
  | S n' =>
      let dd := dct st in
      if used (ht0 dd) =? 0 then
        let st1 := zfree_table st (table (ht0 dd)) in
        Done (set_dct st1 (set_rehashidx (set_ht1 (set_ht0 dd (ht1 dd)) _dictReset) (-1)),
              Some 0)
      else
        st1 ← rehash_migrate st;
        rehash_steps n' st1
  end.

(** [dictRehash(d, n)] for [n >= 0] (the callers in [dict.c] pass 1 and
    100). *)
Definition dictRehash (st : state) (n : Z) : result (state * option Z) :=
  if negb (dictIsRehashing (dct st)) then Done (st, Some 0)
  else rehash_steps (Z.to_nat n) st.

Definition _dictRehashStep (st : state) : result state :=
  if iterators (dct st) =? 0 then
    '(st1, _) ← dictRehash st 1; Done st1
  else Done st.

(** ** Lookup *)

(** [while (he) { if (dictCompareKeys(d, key, he->key)) return he;
    he = he->next; }], giving [NULL] when the chain ends. *)
Fixpoint find_in_chain (fuel : nat) (st : state) (k he : Z) : result Z :=
  match fuel with
  | O => Exhausted
  | S f =>
      if he =? 0 then Done 0
      else
        e ← load_entry st he;
        if dictCompareKeys (dct st) k (key e) then Done he
        else find_in_chain f st k (next e)
  end.

(** One turn of the loop [for (table = 0; table <= 1; table++)] of
    [dictFind] and [_dictKeyIndex]: the search in the bucket of table
    [t]. *)
Definition find_in_table (st : state) (h k t : Z) : result Z :=
  let idx := wrap_uint (Z.land h (sizemask (ht (dct st) t))) in
  he ← load_slot st (table (ht (dct st) t)) idx;
  find_in_chain (chain_fuel st) st k he.

(** The search of [dictFind]: table 0, then table 1 while rehashing. *)
Definition find_tables (st : state) (k : Z) : result Z :=
  let h := dictHashKey (dct st) k in
  r0 ← find_in_table st h k 0;
  if negb (r0 =? 0) then Done r0
  else if negb (dictIsRehashing (dct st)) then Done 0
  else find_in_table st h k 1.

Definition dictFind (st : state) (k : Z) : result (state * Z) :=
  if size (ht0 (dct st)) =? 0 then Done (st, 0)
  else
    st1 ← (if dictIsRehashing (dct st) then _dictRehashStep st else Done st);
    r ← find_tables st1 k;
    Done (st1, r).

Definition dictFetchValue (st : state) (k : Z) : result (state * Z) :=
  '(st1, he) ← dictFind st k;
  if he =? 0 then Done (st1, 0)
  else e ← load_entry st1 he; Done (st1, dictGetVal e).

(** ** Insertion *)

Definition _dictExpandIfNeeded (st : state) : state * Z :=
  let dd := dct st in
  if dictIsRehashing dd then (st, DICT_OK)
  else if size (ht0 dd) =? 0 then dictExpand st DICT_HT_INITIAL_SIZE
  else if (used (ht0 dd) >=? size (ht0 dd)) && dict_can_resize st
          || (used (ht0 dd) / size (ht0 dd) >? dict_force_resize_ratio)
       then dictExpand st (wrap_ulong (2 * used (ht0 dd)))
       else (st, DICT_OK).

(** [_dictKeyIndex]: [-1] when the key is present or the expansion failed,
    and otherwise the bucket index in the last table looked at, converted
    from [unsigned int] to [int]. *)
Definition _dictKeyIndex (st : state) (k : Z) : result (state * Z) :=
  let '(st1, rc) := _dictExpandIfNeeded st in
  if rc =? DICT_ERR then Done (st1, -1)
  else
    let h := dictHashKey (dct st1) k in
    let idx0 := wrap_uint (Z.land h (sizemask (ht0 (dct st1)))) in
    r0 ← find_in_table st1 h k 0;
    if negb (r0 =? 0) then Done (st1, -1)
    else if negb (dictIsRehashing (dct st1)) then Done (st1, wrap_int idx0)
    else
      let idx1 := wrap_uint (Z.land h (sizemask (ht1 (dct st1)))) in
      r1 ← find_in_table st1 h k 1;
      if negb (r1 =? 0) then Done (st1, -1)
      else Done (st1, wrap_int idx1).

(** [dictAddRaw], after its rehash step.  The two linking statements are
    [entry->next = ht->table[index];] and
    [ht->table[index]->next = entry;]: the second one writes the [next]
    field of the node the bucket points to, not the bucket. *)
Definition dictAddRaw_link (st1 : state) (k : Z) : result (state * Z) :=
  '(st2, index) ← _dictKeyIndex st1 k;
  if index =? -1 then Done (st2, 0)
  else
    let t := if dictIsRehashing (dct st2) then 1 else 0 in
    let '(st3, entry) := zmalloc_entry st2 in
    head ← load_slot st3 (table (ht (dct st3) t)) index;
    e ← load_entry st3 entry;
    st4 ← store_entry st3 entry (set_next e head);
    head' ← load_slot st4 (table (ht (dct st4) t)) index;
    eh ← load_entry st4 head';
    st5 ← store_entry st4 head' (set_next eh entry);
    let h := ht (dct st5) t in
    let st6 := set_dct st5 (set_ht (dct st5) t (set_used h (wrap_ulong (used h + 1)))) in
    st7 ← dictSetKey st6 entry k;
    Done (st7, entry).

Definition dictAddRaw (st : state) (k : Z) : result (state * Z) :=
  st1 ← (if dictIsRehashing (dct st) then _dictRehashStep st else Done st);
  dictAddRaw_link st1 k.

Definition dictAdd (st : state) (k v : Z) : result (state * Z) :=
  '(st1, entry) ← dictAddRaw st k;
  if entry =? 0 then Done (st1, DICT_ERR)
  else
    st2 ← dictSetVal st1 entry v;
    Done (st2, DICT_OK).

(** [dictReplace]: the test is [dictAddRaw(d, key) == DICT_OK], a pointer
    compared with the constant [0]. *)
Definition dictReplace (st : state) (k v : Z) : result (state * Z) :=
  '(st1, added) ← dictAddRaw st k;
  if added =? DICT_OK then Done (st1, 1)
  else
    '(st2, entry) ← dictFind st1 k;
    auxentry ← load_entry st2 entry;
    st3 ← dictSetVal st2 entry v;
    Done (dictFreeVal st3 auxentry, 0).

(** [dictPeplaceRaw] (declared as [dictReplaceRaw] in the header). *)
Definition dictPeplaceRaw (st : state) (k : Z) : result (state * Z) :=
  '(st1, entry) ← dictFind st k;
  if negb (entry =? 0) then Done (st1, entry) else dictAddRaw st1 k.

(** ** Deletion *)

(** The [while (he)] loop of [dictGenericDelete] in table [t], bucket
    [idx].  The result tells whether the key was found and removed. *)
Fixpoint delete_in_chain (fuel : nat) (st : state) (k t idx he prevHe : Z)
    (nofree : bool) : result (state * bool) :=
  match fuel with
  | O => Exhausted
  | S f =>
      if he =? 0 then Done (st, false)
      else
        e ← load_entry st he;
        if dictCompareKeys (dct st) k (key e) then
          st1 ← (if negb (prevHe =? 0)
                  then ep ← load_entry st prevHe;
                       store_entry st prevHe (set_next ep (next e))
                  else store_slot st (table (ht (dct st) t)) idx (next e));
          let st2 := if nofree then st1 else dictFreeVal (dictFreeKey st1 e) e in
          let st3 := zfree_entry st2 he in
          let h := ht (dct st3) t in
          Done (set_dct st3 (set_ht (dct st3) t (set_used h (wrap_ulong (used h - 1)))),
                true)
        else delete_in_chain f st k t idx (next e) he nofree
  end.

Definition delete_in_table (st : state) (h k t : Z) (nofree : bool)
    : result (state * bool) :=
  let idx := wrap_uint (Z.land h (sizemask (ht (dct st) t))) in
  he ← load_slot st (table (ht (dct st) t)) idx;
  delete_in_chain (chain_fuel st) st k t idx he 0 nofree.

(** The search of [dictGenericDelete]: table 0, then table 1 while
    rehashing. *)
Definition delete_tables (st1 : state) (k : Z) (nofree : bool)
    : result (state * Z) :=
  let h := dictHashKey (dct st1) k in
  '(st2, found) ← delete_in_table st1 h k 0 nofree;
  if (found : bool) then Done (st2, DICT_OK)
  else if negb (dictIsRehashing (dct st2)) then Done (st2, DICT_ERR)
  else
    '(st3, found) ← delete_in_table st2 h k 1 nofree;
    Done (st3, if (found : bool) then DICT_OK else DICT_ERR).

Definition dictGenericDelete (st : state) (k : Z) (nofree : bool)
    : result (state * Z) :=
  if size (ht0 (dct st)) =? 0 then Done (st, DICT_ERR)
  else
    st1 ← (if dictIsRehashing (dct st) then _dictRehashStep st else Done st);
    delete_tables st1 k nofree.

Definition dictDeleteNoFree (st : state) (k : Z) : result (state * Z) :=
  dictGenericDelete st k true.

(** ** Fingerprint and iterators *)

(** One round of the 64-bit mix, on [long long]: the sum and the left
    shifts wrap, the right shifts are arithmetic. *)
Definition fingerprint_mix (hash : Z) : Z :=
  let hash := wrap_llong (Z.lnot hash + wrap_llong (Z.shiftl hash 21)) in
  let hash := Z.lxor hash (Z.shiftr hash 24) in
  let hash := wrap_llong (wrap_llong (hash + wrap_llong (Z.shiftl hash 3))
                          + wrap_llong (Z.shiftl hash 8)) in
  let hash := Z.lxor hash (Z.shiftr hash 14) in
  let hash := wrap_llong (wrap_llong (hash + wrap_llong (Z.shiftl hash 2))
                          + wrap_llong (Z.shiftl hash 4)) in
  let hash := Z.lxor hash (Z.shiftr hash 28) in
  wrap_llong (hash + wrap_llong (Z.shiftl hash 31)).

Definition dictFingerprint (dd : dict) : Z :=
  let integers :=
    [ wrap_llong (table (ht0 dd)); wrap_llong (size (ht0 dd)); wrap_llong (used (ht0 dd));
      wrap_llong (table (ht1 dd)); wrap_llong (size (ht1 dd)); wrap_llong (used (ht1 dd)) ] in
  fold_left (fun hash i => fingerprint_mix (wrap_llong (hash + i))) integers 0.

(** [dictGetIterator]: the [fingerprint] field of the fresh iterator is not
    written. *)
Definition dictGetIterator (st : state) : dictIterator :=
  DictIterator 0 (-1) 0 0 0 (junk st).

Definition dictGetSafeIterator (st : state) : dictIterator :=
  let i := dictGetIterator st in
  DictIterator (it_table i) (it_index i) 1 (it_entry i) (it_nextEntry i) (it_fingerprint i).

Definition set_it_entry (it : dictIterator) (e : Z) : dictIterator :=
  DictIterator (it_table it) (it_index it) (it_safe it) e (it_nextEntry it)
               (it_fingerprint it).
Definition set_it_nextEntry (it : dictIterator) (e : Z) : dictIterator :=
  DictIterator (it_table it) (it_index it) (it_safe it) (it_entry it) e
               (it_fingerprint it).

(** The branch [iter->entry == NULL] of [dictNext]: the first call
    registers a safe iterator or takes the fingerprint for an unsafe one;
    then the bucket index advances.  The boolean tells that the loop was
    left by [break]. *)
Definition dictNext_bucket (st : state) (it : dictIterator)
    : result (state * dictIterator * bool) :=
  let first := (it_index it =? -1) && (it_table it =? 0) in
  let st1 :=
    if first && negb (it_safe it =? 0)
    then set_dct st (set_iterators (dct st) (wrap_int (iterators (dct st) + 1)))
    else st in
  let fp :=
    if first && (it_safe it =? 0) then dictFingerprint (dct st) else it_fingerprint it in
  let index := wrap_int (it_index it + 1) in
  let it1 := DictIterator (it_table it) index (it_safe it) (it_entry it)
                          (it_nextEntry it) fp in
  if index >=? wrap_int (size (ht (dct st1) (it_table it))) then
    if dictIsRehashing (dct st1) && (it_table it =? 0) then
      e ← load_slot st1 (table (ht1 (dct st1))) 0;
      Done (st1, DictIterator (wrap_int (it_table it + 1)) 0 (it_safe it) e
                              (it_nextEntry it) fp, false)
    else Done (st1, it1, true)
  else
    e ← load_slot st1 (table (ht (dct st1) (it_table it))) index;
    Done (st1, set_it_entry it1 e, false).

(** The [while (1)] loop of [dictNext]. *)
Fixpoint dictNext_loop (fuel : nat) (st : state) (it : dictIterator)
    : result (state * dictIterator * Z) :=
  match fuel with
  | O => Exhausted
  | S f =>
      '(st1, it1, stop) ← (if it_entry it =? 0 then dictNext_bucket st it
                            else Done (st, set_it_entry it (it_nextEntry it), false));
      if (stop : bool) then Done (st1, it1, 0)
      else if negb (it_entry it1 =? 0) then
        e ← load_entry st1 (it_entry it1);
        Done (st1, set_it_nextEntry it1 (next e), it_entry it1)
      else dictNext_loop f st1 it1
  end.

(** Every turn of the loop that does not return steps over one bucket. *)
Definition dictNext (st : state) (it : dictIterator)
    : result (state * dictIterator * Z) :=
  dictNext_loop (Z.to_nat (size (ht0 (dct st)) + size (ht1 (dct st))) + 3) st it.

(** [dictReleaseIterator]; freeing the iterator itself leaves the state
    as it is. *)
Definition dictReleaseIterator (st : state) (it : dictIterator) : result state :=
  if negb ((it_index it =? -1) && (it_table it =? 0)) then
    if negb (it_safe it =? 0)
    then Done (set_dct st (set_iterators (dct st) (wrap_int (iterators (dct st) - 1))))
    else _ ← redis_assert (it_fingerprint it =? dictFingerprint (dct st)); Done st
  else Done st.

(** ** Cursor scan *)

(** [rev]: the loop [while ((s >>= 1) > 0)], started with [s = 64]. *)
Fixpoint rev_loop (fuel : nat) (s mask v : Z) : Z :=
  match fuel with
  | O => v
  | S f =>
      let s := Z.shiftr s 1 in
      if s >? 0 then
        let mask := Z.lxor mask (wrap_ulong (Z.shiftl mask s)) in
        let v := Z.lor (Z.land (Z.shiftr v s) mask)
                       (Z.land (wrap_ulong (Z.shiftl v s)) (wrap_ulong (Z.lnot mask))) in
        rev_loop f s mask v
      else v
  end.

Definition rev (v : Z) : Z := rev_loop 7 (8 * 8) (wrap_ulong (Z.lnot 0)) v.

(** [while (de) { fn(privdata, de); de = de->next; }]: the callback is
    modelled by the list of the entries it is called with. *)
Fixpoint emit_chain (fuel : nat) (st : state) (de : Z) (seen : list Z)
    : result (list Z) :=
  match fuel with
  | O => Exhausted
  | S f =>
      if de =? 0 then Done seen
      else e ← load_entry st de; emit_chain f st (next e) (seen ++ [de])
  end.

(** The [do ... while (v & (m0 ^ m1))] loop over the larger table. *)
Fixpoint scan_expansions (fuel : nat) (st : state) (t1 : dictht) (m0 m1 v : Z)
    (seen : list Z) : result (list Z * Z) :=
  match fuel with
  | O => Exhausted
  | S f =>
      de ← load_slot st (table t1) (Z.land v m1);
      seen1 ← emit_chain (chain_fuel st) st de seen;
      let v1 := Z.lor (Z.land (wrap_ulong (Z.lor v m0 + 1)) (wrap_ulong (Z.lnot m0)))
                      (Z.land v m0) in
      if negb (Z.land v1 (Z.lxor m0 m1) =? 0)
      then scan_expansions f st t1 m0 m1 v1 seen1
      else Done (seen1, v1)
  end.

(** [dictScan]: the entries handed to the callback, in order, and the next
    cursor. *)
Definition dictScan (st : state) (v : Z) : result (list Z * Z) :=
  let dd := dct st in
  if dictSize dd =? 0 then Done ([], 0)
  else
    '(seen, v1, m0) ←
      (if negb (dictIsRehashing dd) then
         let m0 := sizemask (ht0 dd) in
         de ← load_slot st (table (ht0 dd)) (Z.land v m0);
         seen ← emit_chain (chain_fuel st) st de [];
         Done (seen, v, m0)
       else
         let '(t0, t1) :=
           if size (ht0 dd) >? size (ht1 dd) then (ht1 dd, ht0 dd) else (ht0 dd, ht1 dd) in
         let m0 := sizemask t0 in
         let m1 := sizemask t1 in
         de ← load_slot st (table t0) (Z.land v m0);
         seen ← emit_chain (chain_fuel st) st de [];
         '(seen1, v1) ← scan_expansions (S (Z.to_nat (size t1))) st t1 m0 m1 v seen;
         Done (seen1, v1, m0));
    let v2 := Z.lor v1 (wrap_ulong (Z.lnot m0)) in
    let v3 := rev v2 in
    let v4 := wrap_ulong (v3 + 1) in
    Done (seen, rev v4).

(** The caller of [dictScan]: the scan is carried on from cursor [v] until
    a call returns cursor 0. *)
Fixpoint scan_until_zero (fuel : nat) (st : state) (v : Z) (seen : list Z)
    : result (list Z) :=
  match fuel with
  | O => Exhausted
  | S f =>
      '(s, v') ← dictScan st v;
      if v' =? 0 then Done (seen ++ s) else scan_until_zero f st v' (seen ++ s)
  end.


(** * Notions used by the specification *)

(** ** Chains and well-formed dicts *)

(** [is_chain h p l]: in the heap [h], the [next] links from the pointer
    [p] pass through the nodes at the addresses [l], in this order, and
    end in [NULL]. *)
Fixpoint is_chain (h : gmap Z dictEntry) (p : Z) (l : list Z) : Prop :=
  match l with
  | [] => p = 0
  | a :: l' => p = a /\ a <> 0 /\ exists e, h !! a = Some e /\ is_chain h (next e) l'
  end.

(** [matches st k a]: the node at [a] holds a key that compares equal to
    the searched key [k]. *)
Definition matches (st : state) (k a : Z) : Prop :=
  exists e, entries st !! a = Some e /\ dictCompareKeys (dct st) k (key e) = true.

(** What a search among the nodes [l] may answer. *)
Definition finds (st : state) (l : list Z) (k r : Z) : Prop :=
  (r = 0 /\ forall a, a ∈ l -> ~ matches st k a) \/ (r ∈ l /\ matches st k r).

(** The bucket array of [h] holds the chains [B], one list of node
    addresses per bucket, and every node sits in the bucket its key hashes
    to. *)
Record table_ok (st : state) (h : dictht) (B : list (list Z)) : Prop := {
  tok_arr : exists arr, arrays st !! table h = Some arr
                        /\ Forall2 (is_chain (entries st)) arr B;
  tok_len : Z.of_nat (length B) = size h;
  tok_size : 0 < size h < 2 ^ 31;
  tok_mask : sizemask h = size h - 1;
  tok_used : used h = Z.of_nat (length (concat B));
  tok_place : forall i l a e, B !! i = Some l -> a ∈ l -> entries st !! a = Some e ->
              Z.land (dictHashKey (dct st) (key e)) (sizemask h) = Z.of_nat i;
  tok_table : table h <> 0
}.

(** The laws the key comparison of a [dictType] has to obey. *)
Record type_ok (dd : dict) : Prop := {
  cmp_eucl : forall k x y, dictCompareKeys dd k x = true ->
                           dictCompareKeys dd k y = true ->
                           dictCompareKeys dd x y = true;
  cmp_hash : forall k x, dictCompareKeys dd k x = true ->
                         dictHashKey dd k = dictHashKey dd x
}.

(** [wf st B0 B1]: the dict of [st] is well formed with the chains [B0]
    in table 0 and [B1] in table 1.  Both tables are as [table_ok] says
    (table 1 is reset when the dict is not rehashing), no node is in two
    places, no two nodes hold equal keys, and while rehashing the buckets
    of table 0 below [rehashidx] are empty. *)
Record wf (st : state) (B0 B1 : list (list Z)) : Prop := {
  wf_type : type_ok (dct st);
  wf_t0 : table_ok st (ht0 (dct st)) B0;
  wf_t1 : if dictIsRehashing (dct st)
          then table_ok st (ht1 (dct st)) B1
               /\ table (ht0 (dct st)) <> table (ht1 (dct st))
          else B1 = [] /\ ht1 (dct st) = _dictReset;
  wf_nodup : NoDup (concat B0 ++ concat B1);
  wf_count : Z.of_nat (length (concat B0 ++ concat B1)) < 2 ^ 63;
  wf_keys : forall a b ea eb,
      a ∈ concat B0 ++ concat B1 -> b ∈ concat B0 ++ concat B1 ->
      entries st !! a = Some ea -> entries st !! b = Some eb ->
      dictCompareKeys (dct st) (key ea) (key eb) = true -> a = b;
  wf_idx : dictIsRehashing (dct st) = true ->
           0 <= rehashidx (dct st)
           /\ forall i l, Z.of_nat i < rehashidx (dct st) -> B0 !! i = Some l -> l = []
}.

(** [st] is well formed with some assignment of chains to buckets. *)
Definition well_formed (st : state) : Prop := exists B0 B1, wf st B0 B1.

(** ** Relations between states *)

(** What the migration of a bucket leaves alone. *)
Record moved (st st' : state) : Prop := {
  mv_type : type (dct st') = type (dct st);
  mv_priv : privdata (dct st') = privdata (dct st);
  mv_idx : rehashidx (dct st') = rehashidx (dct st);
  mv_iter : iterators (dct st') = iterators (dct st);
  mv_t0 : table (ht0 (dct st')) = table (ht0 (dct st))
          /\ size (ht0 (dct st')) = size (ht0 (dct st))
          /\ sizemask (ht0 (dct st')) = sizemask (ht0 (dct st));
  mv_t1 : table (ht1 (dct st')) = table (ht1 (dct st))
          /\ size (ht1 (dct st')) = size (ht1 (dct st))
          /\ sizemask (ht1 (dct st')) = sizemask (ht1 (dct st));
  mv_arrays : forall t, t <> table (ht1 (dct st)) -> arrays st' !! t = arrays st !! t;
  mv_entries : forall a,
      option_Forall2 (fun e e' => key e' = key e /\ v_val e' = v_val e)
                     (entries st !! a) (entries st' !! a)
}.

(** What a rehash call leaves alone: the callbacks, the iterator count,
    the key and the value of every node, and the number of entries. *)
Record preserved (st st' : state) : Prop := {
  pr_type : type (dct st') = type (dct st);
  pr_priv : privdata (dct st') = privdata (dct st);
  pr_iter : iterators (dct st') = iterators (dct st);
  pr_entries : forall a,
      option_Forall2 (fun e e' => key e' = key e /\ v_val e' = v_val e)
                     (entries st !! a) (entries st' !! a);
  pr_used : used (ht0 (dct st')) + used (ht1 (dct st'))
            = used (ht0 (dct st)) + used (ht1 (dct st))
}.

(** [m] successive calls [dictRehash(d, 1)]. *)
Fixpoint rehash_calls (m : nat) (st : state) : result state :=
  match m with
  | O => Done st
  | S m' => '(st1, _) ← dictRehash st 1; rehash_calls m' st1
  end.

(** The value [dictFetchValue] reads at the node [r]. *)
Definition value_at (st : state) (r : Z) : Z :=
  if r =? 0 then 0
  else match entries st !! r with
       | Some e => dictGetVal e
       | None => 0
       end.

(** ** Table sizes and the growth policy *)

(** [n] is a power of two. *)
Definition is_pow2 (n : Z) : Prop := exists k, 0 <= k /\ n = 2 ^ k.

(** [r] is the least power of two that is at least [n]. *)
Definition next_pow2 (n r : Z) : Prop :=
  is_pow2 r /\ n <= r /\ forall p, is_pow2 p -> n <= p -> r <= p.

(** The five statements [size |= size >> 1; ... size |= size >> 16;] of
    [_dictNextPower]. *)
Definition smear (s : Z) : Z :=
  let s := Z.lor s (Z.shiftr s 1) in
  let s := Z.lor s (Z.shiftr s 2) in
  let s := Z.lor s (Z.shiftr s 4) in
  let s := Z.lor s (Z.shiftr s 8) in
  Z.lor s (Z.shiftr s 16).



(** ** Iterators *)

(** The state of an iterator that has not been advanced. *)
Definition it_initial (it : dictIterator) : Prop := it_index it = -1 /\ it_table it = 0.

(** ** Example states *)

(** Integer keys hashed by the identity ([dictIndentityHashFunction]),
    compared as pointers, with a value destructor. *)
Definition int_type : dictType :=
  DictType (fun k => k) None None None false true.


(** One key, 7, with value 70, in bucket 3 of a table of 4 buckets. *)
Definition ex_one : state :=
  State (Dict int_type 0 (Dictht 64 4 3 1) _dictReset (-1) 0)
        {[ 256 := DictEntry 7 70 0 ]}
        {[ 64 := [0; 0; 0; 256] ]}
        4096 3735928559 true [] [].

(** [ex_one] after [dictDelete] of its key. *)
Definition ex_one_deleted : state :=
  State (Dict int_type 0 (Dictht 64 4 3 0) _dictReset (-1) 0)
        ∅ {[ 64 := [0; 0; 0; 0] ]} 4096 3735928559 true [] [70].

(** The iterator [dictNext] leaves after the first advance over
    [ex_one]. *)
Definition ex_one_iterator : dictIterator :=
  DictIterator 0 3 0 256 0 (dictFingerprint (dct ex_one)).

(** Mid-rehash from 4 to 8 buckets, nothing migrated yet: key 5 in
    bucket 1, keys 7 and 3 chained in bucket 3. *)
Definition ex_rehashing : state :=
  State (Dict int_type 0 (Dictht 64 4 3 3) (Dictht 128 8 7 0) 0 0)
        {[ 256 := DictEntry 7 70 280; 280 := DictEntry 3 30 0; 304 := DictEntry 5 50 0 ]}
        {[ 64 := [0; 304; 0; 256]; 128 := [0; 0; 0; 0; 0; 0; 0; 0] ]}
        4096 3735928559 true [] [].

(** [ex_rehashing] with one safe iterator registered. *)
Definition ex_iterating : state :=
  set_dct ex_rehashing (set_iterators (dct ex_rehashing) 1).

(** A table of 32 buckets that deletions have left with two keys: 8 in
    bucket 8 and 1 in bucket 1. *)
Definition ex_sparse : state :=
  State (Dict int_type 0 (Dictht 64 32 31 2) _dictReset (-1) 0)
        {[ 256 := DictEntry 8 80 0; 280 := DictEntry 1 10 0 ]}
        {[ 64 := <[1%nat := 280]> (<[8%nat := 256]> (replicate 32 0)) ]}
        4096 3735928559 true [] [].

(** [ex_sparse] after [dictResize]: a shrink from 32 to 4 buckets is under
    way and nothing has been migrated. *)
Definition ex_sparse_shrinking : state :=
  State (Dict int_type 0 (Dictht 64 32 31 2) (Dictht 4096 4 3 0) 0 0)
        {[ 256 := DictEntry 8 80 0; 280 := DictEntry 1 10 0 ]}
        {[ 64 := <[1%nat := 280]> (<[8%nat := 256]> (replicate 32 0));
           4096 := [0; 0; 0; 0] ]}
        4128 3735928559 true [] [].

(** * Verification *)

(** ** Arithmetic of the machine integers *)

Lemma wrap_uint_small z : 0 <= z < 2 ^ 32 -> wrap_uint z = z.
Proof. intros H. unfold wrap_uint. apply Z.mod_small. lia. Qed.

Lemma wrap_ulong_small z : 0 <= z < 2 ^ 64 -> wrap_ulong z = z.
Proof. intros H. unfold wrap_ulong. apply Z.mod_small. lia. Qed.

Lemma wrap_int_small z : - 2 ^ 31 <= z < 2 ^ 31 -> wrap_int z = z.
Proof. intros H. unfold wrap_int. rewrite Z.mod_small; lia. Qed.

Lemma wrap_llong_small z : - 2 ^ 63 <= z < 2 ^ 63 -> wrap_llong z = z.
Proof. intros H. unfold wrap_llong. rewrite Z.mod_small; lia. Qed.

Lemma wrap_uint_range z : 0 <= wrap_uint z < 2 ^ 32.
Proof. unfold wrap_uint. apply Z.mod_pos_bound. lia. Qed.

Lemma wrap_int_range z : - 2 ^ 31 <= wrap_int z < 2 ^ 31.
Proof.
  unfold wrap_int. pose proof (Z.mod_pos_bound (z + 2 ^ 31) (2 ^ 32) ltac:(lia)). lia.
Qed.

Lemma land_le_r a b : 0 <= a -> 0 <= b -> Z.land a b <= b.
Proof.
  intros Ha Hb.
  assert (Hs : Z.lor (Z.ldiff b a) (Z.land b a) + Z.land (Z.ldiff b a) (Z.land b a)
               = Z.ldiff b a + Z.land b a) by apply Z.add_lor_land.
  rewrite Z.lor_ldiff_and in Hs.
  assert (Hz : Z.land (Z.ldiff b a) (Z.land b a) = 0).
  { apply Z.bits_inj'. intros n Hn.
    rewrite !Z.land_spec, Z.ldiff_spec, Z.bits_0.
    destruct (Z.testbit b n), (Z.testbit a n); reflexivity. }
  rewrite Hz in Hs.
  assert (0 <= Z.ldiff b a) by (apply Z.ldiff_nonneg; lia).
  rewrite (Z.land_comm a b). lia.
Qed.

Lemma hash_index_range dd k m :
  0 <= m -> 0 <= Z.land (dictHashKey dd k) m <= m /\ Z.land (dictHashKey dd k) m < 2 ^ 32.
Proof.
  intros Hm. pose proof (wrap_uint_range (hashFunction (type dd) k)) as Hr.
  fold (dictHashKey dd k) in Hr.
  assert (0 <= Z.land (dictHashKey dd k) m) by (apply Z.land_nonneg; lia).
  assert (Z.land (dictHashKey dd k) m <= m) by (apply land_le_r; lia).
  assert (Z.land (dictHashKey dd k) m <= dictHashKey dd k).
  { rewrite Z.land_comm. apply land_le_r; lia. }
  lia.
Qed.

(** ** Memory accesses that succeed *)

Lemma load_entry_ok st p e :
  p <> 0 -> entries st !! p = Some e -> load_entry st p = Done e.
Proof.
  intros Hnz He. unfold load_entry. apply Z.eqb_neq in Hnz. by rewrite Hnz, He.
Qed.

Lemma store_entry_ok st p e0 e :
  p <> 0 -> entries st !! p = Some e0 ->
  store_entry st p e = Done (set_entries st (<[p := e]> (entries st))).
Proof.
  intros Hnz He. unfold store_entry. apply Z.eqb_neq in Hnz. by rewrite Hnz, He.
Qed.

Lemma store_slot_ok st tbl arr i (p0 p : Z) :
  arrays st !! tbl = Some arr -> 0 <= i -> arr !! Z.to_nat i = Some p0 ->
  store_slot st tbl i p
  = Done (set_arrays st (<[tbl := <[Z.to_nat i := p]> arr]> (arrays st))).
Proof.
  intros Harr Hi Hp. unfold store_slot. rewrite Harr.
  destruct (Z.ltb_spec i 0); [lia|]. by rewrite Hp.
Qed.

Lemma load_slot_zeros st tbl i :
  arrays st !! tbl = Some [0; 0; 0; 0] -> 0 <= i <= 3 -> load_slot st tbl i = Done 0.
Proof.
  intros Harr Hi. unfold load_slot. rewrite Harr.
  destruct (Z.ltb_spec i 0); [lia|].
  assert (i = 0 \/ i = 1 \/ i = 2 \/ i = 3) as [-> | [-> | [-> | ->]]] by lia; reflexivity.
Qed.

(** ** Chains *)

Lemma is_chain_agree (h h' : gmap Z dictEntry) l : forall p,
  is_chain h p l -> (forall a, a ∈ l -> h' !! a = h !! a) -> is_chain h' p l.
Proof.
  induction l as [|a l IH]; intros p Hc Hag; simpl in *; [done|].
  destruct Hc as (-> & Hnz & e & He & Hc). split; [done|]. split; [done|].
  exists e. split.
  - rewrite Hag; [done|]. left.
  - apply IH; [done|]. intros b Hb. apply Hag. by right.
Qed.

Lemma is_chain_nonnull h l : forall p a, is_chain h p l -> a ∈ l -> a <> 0.
Proof.
  induction l as [|b l IH]; intros p a Hc Ha; [by apply elem_of_nil in Ha|].
  simpl in Hc. destruct Hc as (-> & Hnz & e & He & Hc).
  apply elem_of_cons in Ha as [->|Ha]; [done|]. eauto.
Qed.

Lemma is_chain_alloc h l : forall p a, is_chain h p l -> a ∈ l -> is_Some (h !! a).
Proof.
  induction l as [|b l IH]; intros p a Hc Ha; [by apply elem_of_nil in Ha|].
  simpl in Hc. destruct Hc as (-> & Hnz & e & He & Hc).
  apply elem_of_cons in Ha as [->|Ha]; [eauto|]. eauto.
Qed.

Lemma is_chain_null h l : is_chain h 0 l -> l = [].
Proof. destruct l; [done|]. simpl. intros (-> & Hnz & _). done. Qed.

Lemma chain_length_bound (h : gmap Z dictEntry) (l : list Z) :
  NoDup l -> (forall a, a ∈ l -> is_Some (h !! a)) -> (length l <= base.size h)%nat.
Proof.
  intros Hnd Hin.
  rewrite <- (size_dom (D := gset Z) h).
  unfold base.size at 1, set_size. simpl.
  apply submseteq_length, NoDup_submseteq; [done|].
  intros a Ha. apply elem_of_elements, elem_of_dom. auto.
Qed.

Lemma elem_of_concat_lookup (B : list (list Z)) a :
  a ∈ concat B <-> exists i l, B !! i = Some l /\ a ∈ l.
Proof.
  induction B as [|x B IH]; simpl.
  - split; [intros Ha; by apply elem_of_nil in Ha|]. by intros (i & l & Hi & _).
  - rewrite elem_of_app, IH. split.
    + intros [Ha|(i & l & Hi & Ha)]; [by exists 0%nat, x|by exists (S i), l].
    + intros ([|i] & l & Hi & Ha); simpl in Hi; [simplify_eq; by left|right; eauto].
Qed.

Lemma sublist_concat_NoDup (B : list (list Z)) i l :
  NoDup (concat B) -> B !! i = Some l -> NoDup l.
Proof.
  revert i. induction B as [|x B IH]; intros i Hnd Hi; [done|].
  simpl in Hnd. apply NoDup_app in Hnd as (H1 & _ & H2).
  destruct i; simpl in Hi; [by simplify_eq|]. eauto.
Qed.

Lemma concat_insert (B : list (list Z)) i x y :
  B !! i = Some x -> x ++ concat (<[i := y]> B) ≡ₚ y ++ concat B.
Proof.
  revert i. induction B as [|b B IH]; intros i Hi; [done|].
  destruct i as [|i]; simpl in *.
  - simplify_eq. rewrite !app_assoc. f_equiv. apply Permutation_app_comm.
  - rewrite !app_assoc, (Permutation_app_comm x b), (Permutation_app_comm y b).
    rewrite <- !app_assoc. f_equiv. by apply IH.
Qed.

Lemma concat_insert_cons (B : list (list Z)) i x a :
  B !! i = Some x -> concat (<[i := a :: x]> B) ≡ₚ a :: concat B.
Proof.
  intros Hi. apply (Permutation_app_inv_l x).
  rewrite (concat_insert B i x (a :: x) Hi). simpl.
  rewrite Permutation_middle. done.
Qed.

Lemma concat_insert_nil (B : list (list Z)) i x :
  B !! i = Some x -> concat B ≡ₚ x ++ concat (<[i := []]> B).
Proof. intros Hi. by rewrite (concat_insert B i x [] Hi). Qed.

Lemma concat_nonempty_lookup (B : list (list Z)) :
  concat B <> [] -> exists i l, B !! i = Some l /\ l <> [].
Proof.
  intros Hne. destruct (concat B) as [|a r] eqn:Hc; [done|].
  assert (Ha : a ∈ concat B) by (rewrite Hc; left).
  apply elem_of_concat_lookup in Ha as (i & l & Hi & Ha).
  exists i, l. split; [done|]. intros ->. by apply elem_of_nil in Ha.
Qed.

Lemma concat_replicate_nil (n : nat) : concat (replicate n (@nil Z)) = [].
Proof. induction n as [|n IH]; [done|]. simpl. exact IH. Qed.

(** ** Lookup in a well-formed dict *)

Lemma find_in_chain_spec st k l : forall p fuel,
  is_chain (entries st) p l -> (length l < fuel)%nat ->
  exists r, find_in_chain fuel st k p = Done r /\ finds st l k r.
Proof.
  induction l as [|a l IH]; intros p fuel Hc Hf.
  - simpl in Hc. subst p. destruct fuel; [simpl in Hf; lia|].
    exists 0. split; [done|]. left. split; [done|]. intros a Ha. by apply elem_of_nil in Ha.
  - simpl in Hc. destruct Hc as (-> & Hnz & e & He & Hc).
    destruct fuel as [|fuel]; [simpl in Hf; lia|].
    simpl. apply Z.eqb_neq in Hnz as Hnz'. rewrite Hnz'.
    unfold load_entry. rewrite Hnz', He. simpl.
    destruct (dictCompareKeys (dct st) k (key e)) eqn:Hcmp.
    + exists a. split; [done|]. right. split; [left|]. by exists e.
    + destruct (IH (next e) fuel Hc) as (r & Hr & Hfs); [simpl in Hf; lia|].
      exists r. split; [done|].
      destruct Hfs as [[-> Hno]|[Hin Hm]].
      * left. split; [done|]. intros b Hb.
        apply elem_of_cons in Hb as [->|Hb]; [|by apply Hno].
        intros (e' & He' & Hcmp'). congruence.
      * right. split; [by right|done].
Qed.

Lemma table_ok_slot st h B i :
  table_ok st h B -> 0 <= i < size h ->
  exists p l, load_slot st (table h) i = Done p /\ B !! Z.to_nat i = Some l
              /\ is_chain (entries st) p l.
Proof.
  intros Hok Hi. destruct (tok_arr _ _ _ Hok) as (arr & Harr & Hf).
  pose proof (tok_len _ _ _ Hok) as Hlen.
  unfold load_slot. rewrite Harr.
  destruct (Z.ltb_spec i 0) as [?|_]; [lia|].
  destruct (lookup_lt_is_Some_2 B (Z.to_nat i)) as [l Hl]; [lia|].
  destruct (Forall2_lookup_r _ _ _ _ _ Hf Hl) as (p & Hp & Hc).
  rewrite Hp. eauto.
Qed.

Lemma table_ok_fuel st h B i l :
  table_ok st h B -> NoDup (concat B) -> B !! i = Some l ->
  (length l < chain_fuel st)%nat.
Proof.
  intros Hok Hnd Hl. unfold chain_fuel.
  destruct (tok_arr _ _ _ Hok) as (arr & Harr & Hf).
  destruct (Forall2_lookup_r _ _ _ _ _ Hf Hl) as (p & Hp & Hc).
  assert (length l <= base.size (entries st))%nat; [|lia].
  apply chain_length_bound; [by eapply sublist_concat_NoDup|].
  intros a Ha. by eapply is_chain_alloc.
Qed.

(** A search in one table answers for all the nodes of that table. *)
Lemma find_in_table_spec st B k t :
  type_ok (dct st) ->
  table_ok st (ht (dct st) t) B -> NoDup (concat B) ->
  exists r, find_in_table st (dictHashKey (dct st) k) k t = Done r
            /\ finds st (concat B) k r.
Proof.
  intros Hty Hok Hnd. unfold find_in_table.
  pose proof (tok_size _ _ _ Hok) as Hsz. pose proof (tok_mask _ _ _ Hok) as Hmask.
  destruct (hash_index_range (dct st) k (sizemask (ht (dct st) t))) as [Hr1 Hr2]; [lia|].
  rewrite wrap_uint_small by lia.
  set (idx := Z.land (dictHashKey (dct st) k) (sizemask (ht (dct st) t))) in *.
  destruct (table_ok_slot st _ B idx Hok) as (p & l & Hp & Hl & Hc); [lia|].
  rewrite Hp. simpl.
  destruct (find_in_chain_spec st k l p (chain_fuel st) Hc) as (r & Hr & Hfs).
  { by eapply table_ok_fuel. }
  exists r. split; [done|].
  destruct Hfs as [[-> Hno]|[Hin Hm]].
  - left. split; [done|]. intros a Ha Hma.
    apply elem_of_concat_lookup in Ha as (i & l' & Hi & Ha).
    destruct Hma as (e & He & Hcmp).
    pose proof (tok_place _ _ _ Hok i l' a e Hi Ha He) as Hpl.
    rewrite <- (cmp_hash _ Hty _ _ Hcmp) in Hpl. fold idx in Hpl.
    assert (i = Z.to_nat idx) by lia. subst i.
    rewrite Hl in Hi. simplify_eq. apply (Hno a Ha). by exists e.
  - right. split; [|done]. apply elem_of_concat_lookup. eauto.
Qed.

(** At most one node matches a key. *)
Lemma finds_unique st B0 B1 k r1 r2 :
  wf st B0 B1 ->
  finds st (concat B0 ++ concat B1) k r1 -> finds st (concat B0 ++ concat B1) k r2 ->
  r1 = r2.
Proof.
  intros Hwf [[-> Hno1]|[Hin1 Hm1]] [[-> Hno2]|[Hin2 Hm2]]; [done| | |].
  - by destruct (Hno1 r2 Hin2).
  - by destruct (Hno2 r1 Hin1).
  - destruct Hm1 as (e1 & He1 & Hc1), Hm2 as (e2 & He2 & Hc2).
    eapply (wf_keys _ _ _ Hwf); [done|done|done|done|].
    eapply cmp_eucl; [apply Hwf|done..].
Qed.

Lemma finds_app_l st l1 l2 k r : r <> 0 -> finds st l1 k r -> finds st (l1 ++ l2) k r.
Proof.
  intros Hnz [[-> _]|[Hin Hm]]; [done|]. right. split; [|done].
  apply elem_of_app. by left.
Qed.

Lemma find_tables_spec st B0 B1 k :
  wf st B0 B1 ->
  exists r, find_tables st k = Done r /\ finds st (concat B0 ++ concat B1) k r.
Proof.
  intros Hwf. unfold find_tables.
  pose proof (wf_nodup _ _ _ Hwf) as Hnd. apply NoDup_app in Hnd as (Hnd0 & _ & Hnd1).
  destruct (find_in_table_spec st B0 k 0 (wf_type _ _ _ Hwf) (wf_t0 _ _ _ Hwf) Hnd0)
    as (r0 & Hr0 & Hf0).
  rewrite Hr0. simpl.
  destruct (Z.eqb_spec r0 0) as [->|Hnz]; simpl.
  - pose proof (wf_t1 _ _ _ Hwf) as Ht1.
    destruct (dictIsRehashing (dct st)); simpl.
    + destruct Ht1 as [Ht1 _].
      destruct (find_in_table_spec st B1 k 1 (wf_type _ _ _ Hwf) Ht1 Hnd1)
        as (r1 & Hr1 & Hf1).
      exists r1. split; [done|].
      destruct Hf0 as [[_ Hno0]|[Hin _]].
      2:{ apply elem_of_concat_lookup in Hin as (i & l & Hi & Hin).
          destruct (tok_arr _ _ _ (wf_t0 _ _ _ Hwf)) as (arr & _ & Hf).
          destruct (Forall2_lookup_r _ _ _ _ _ Hf Hi) as (p & _ & Hc).
          by destruct (is_chain_nonnull _ _ _ _ Hc Hin). }
      destruct Hf1 as [[-> Hno1]|[Hin Hm]].
      * left. split; [done|]. intros a Ha. apply elem_of_app in Ha as [Ha|Ha]; eauto.
      * right. split; [|done]. apply elem_of_app. by right.
    + destruct Ht1 as [-> _]. exists 0. split; [done|].
      simpl. rewrite app_nil_r. done.
  - exists r0. split; [done|]. by apply finds_app_l.
Qed.

(** ** Incremental rehashing (C3, C4) *)

Lemma moved_refl st : moved st st.
Proof.
  split; try done. intros a. destruct (entries st !! a); by constructor.
Qed.

Lemma moved_trans st1 st2 st3 : moved st1 st2 -> moved st2 st3 -> moved st1 st3.
Proof.
  intros H1 H2. destruct H1, H2. split; try congruence.
  - intuition congruence.
  - intuition congruence.
  - intros t Ht. rewrite mv_arrays1, mv_arrays0; [done|done|].
    destruct mv_t3 as (-> & _). done.
  - intros a. specialize (mv_entries0 a). specialize (mv_entries1 a).
    destruct mv_entries0; inversion mv_entries1; simplify_eq; constructor.
    intuition congruence.
Qed.

Lemma hash_moved st st' k : moved st st' -> dictHashKey (dct st') k = dictHashKey (dct st) k.
Proof. intros H. unfold dictHashKey. by rewrite (mv_type _ _ H). Qed.

Lemma compare_moved st st' k1 k2 :
  moved st st' -> dictCompareKeys (dct st') k1 k2 = dictCompareKeys (dct st) k1 k2.
Proof.
  intros H. unfold dictCompareKeys. by rewrite (mv_type _ _ H), (mv_priv _ _ H).
Qed.

Lemma preserved_refl st : preserved st st.
Proof. split; try done. intros a. destruct (entries st !! a); by constructor. Qed.

Lemma preserved_trans st1 st2 st3 :
  preserved st1 st2 -> preserved st2 st3 -> preserved st1 st3.
Proof.
  intros H1 H2. destruct H1, H2. split; try congruence.
  intros a. specialize (pr_entries0 a). specialize (pr_entries1 a).
  destruct pr_entries0; inversion pr_entries1; simplify_eq; constructor.
  intuition congruence.
Qed.

Lemma type_ok_ext dd dd' :
  type dd' = type dd -> privdata dd' = privdata dd -> type_ok dd -> type_ok dd'.
Proof.
  intros Ht Hp [H1 H2]. split; unfold dictCompareKeys, dictHashKey in *;
    rewrite Ht, Hp; [exact H1|exact H2].
Qed.

Lemma rehash_bucket_spec l : forall st de B1 fuel,
  is_chain (entries st) de l ->
  table_ok st (ht1 (dct st)) B1 ->
  NoDup (l ++ concat B1) ->
  Z.of_nat (length l) <= used (ht0 (dct st)) < 2 ^ 64 ->
  used (ht1 (dct st)) + Z.of_nat (length l) < 2 ^ 64 ->
  (length l < fuel)%nat ->
  exists st' B1',
    rehash_bucket fuel st de = Done st'
    /\ table_ok st' (ht1 (dct st')) B1'
    /\ concat B1' ≡ₚ l ++ concat B1
    /\ used (ht0 (dct st')) = used (ht0 (dct st)) - Z.of_nat (length l)
    /\ moved st st'
    /\ (forall a, a ∉ l -> entries st' !! a = entries st !! a).
Proof.
  induction l as [|a l IH]; intros st de B1 fuel Hc Hok Hnd Hu0 Hu1 Hf.
  - simpl in Hc. subst de. destruct fuel; [simpl in Hf; lia|].
    exists st, B1. simpl. split; [done|]. split; [done|]. split; [done|].
    split; [lia|]. split; [apply moved_refl|done].
  - simpl in Hc. destruct Hc as (-> & Hnz & e & He & Hc).
    destruct fuel as [|fuel]; [simpl in Hf; lia|].
    simpl in Hnd. apply NoDup_cons in Hnd as [Hnotin Hnd].
    assert (Ha_l : a ∉ l) by (intros ?; apply Hnotin, elem_of_app; by left).
    assert (Ha_B : a ∉ concat B1) by (intros ?; apply Hnotin, elem_of_app; by right).
    pose proof (tok_size _ _ _ Hok) as Hsz. pose proof (tok_mask _ _ _ Hok) as Hmask.
    destruct (hash_index_range (dct st) (key e) (sizemask (ht1 (dct st)))) as [Hr1 Hr2];
      [lia|].
    set (i := Z.land (dictHashKey (dct st) (key e)) (sizemask (ht1 (dct st)))) in *.
    destruct (table_ok_slot st _ B1 i Hok) as (hd & lb & Hhd & Hlb & Hchd); [lia|].
    destruct (tok_arr _ _ _ Hok) as (arr & Harr & HF).
    destruct (Forall2_lookup_r _ _ _ _ _ HF Hlb) as (hd' & Hhd' & _).
    set (e' := set_next e hd).
    set (st3 := set_dct
                  (set_arrays (set_entries st (<[a := e']> (entries st)))
                     (<[table (ht1 (dct st)) := <[Z.to_nat i := a]> arr]> (arrays st)))
                  (set_ht1 (set_ht0 (dct st)
                              (set_used (ht0 (dct st)) (used (ht0 (dct st)) - 1)))
                     (set_used (ht1 (dct st)) (used (ht1 (dct st)) + 1)))).
    assert (Hstep : rehash_bucket (S fuel) st a = rehash_bucket fuel st3 (next e)).
    { simpl. rewrite (proj2 (Z.eqb_neq a 0) Hnz).
      rewrite (load_entry_ok st a e) by done. simpl.
      rewrite wrap_uint_small by (fold i; lia). fold i.
      rewrite Hhd. simpl.
      rewrite (store_entry_ok st a e) by done. simpl.
      erewrite store_slot_ok; [|exact Harr|lia|exact Hhd']. simpl.
      pose proof (tok_used _ _ _ Hok) as Hused.
      rewrite !wrap_ulong_small by (simpl in *; lia).
      reflexivity. }
    rewrite Hstep.
    assert (Hag : forall b, b <> a -> entries st3 !! b = entries st !! b).
    { intros b Hb. unfold st3. simpl. by rewrite lookup_insert_ne. }
    assert (Hmv : moved st st3).
    { split; try done.
      - intros t Ht. unfold st3. simpl. by rewrite lookup_insert_ne.
      - intros b. unfold st3. simpl. destruct (decide (b = a)) as [->|Hb].
        + rewrite lookup_insert_eq, He. by constructor.
        + rewrite lookup_insert_ne by done. destruct (entries st !! b); by constructor. }
    assert (Hok3 : table_ok st3 (ht1 (dct st3)) (<[Z.to_nat i := a :: lb]> B1)).
    { split.
      - exists (<[Z.to_nat i := a]> arr). split; [simpl; by rewrite lookup_insert_eq|].
        apply Forall2_insert.
        + apply Forall2_same_length_lookup. split; [by eapply Forall2_length|].
          intros j p lp Hp Hlp.
          eapply is_chain_agree; [exact (Forall2_lookup_lr _ _ _ _ _ _ HF Hp Hlp)|].
          intros b Hb. apply Hag. intros ->.
          apply Ha_B, elem_of_concat_lookup. eauto.
        + simpl. split; [done|]. split; [done|]. exists e'. split.
          * by rewrite lookup_insert_eq.
          * simpl. eapply is_chain_agree; [exact Hchd|].
            intros b Hb. apply lookup_insert_ne. intros ->.
            apply Ha_B, elem_of_concat_lookup. eauto.
      - rewrite length_insert. exact (tok_len _ _ _ Hok).
      - exact Hsz.
      - exact Hmask.
      - simpl. rewrite (concat_insert_cons B1 _ lb a Hlb). simpl.
        rewrite (tok_used _ _ _ Hok). lia.
      - intros j lj b eb Hj Hb Heb. rewrite (hash_moved st st3) by done.
        change (sizemask (ht1 (dct st3))) with (sizemask (ht1 (dct st))).
        destruct (decide (j = Z.to_nat i)) as [->|Hji].
        + rewrite list_lookup_insert_eq in Hj by (apply lookup_lt_Some in Hlb; lia).
          simplify_eq. apply elem_of_cons in Hb as [->|Hb].
          * simpl in Heb. rewrite lookup_insert_eq in Heb. simplify_eq. simpl. fold i. lia.
          * rewrite Hag in Heb.
            2:{ intros ->. apply Ha_B, elem_of_concat_lookup. eauto. }
            by apply (tok_place _ _ _ Hok _ lb b eb).
        + rewrite list_lookup_insert_ne in Hj by done.
          rewrite Hag in Heb.
          2:{ intros ->. apply Ha_B, elem_of_concat_lookup. eauto. }
          by apply (tok_place _ _ _ Hok _ lj b eb).
      - exact (tok_table _ _ _ Hok). }
    pose proof (concat_insert_cons B1 _ lb a Hlb) as Hperm.
    destruct (IH st3 (next e) (<[Z.to_nat i := a :: lb]> B1) fuel)
      as (st' & B1' & Hrun & Hok' & Hperm' & Hused' & Hmv' & Hfr').
    { eapply is_chain_agree; [exact Hc|]. intros b Hb. apply Hag. by intros ->. }
    { exact Hok3. }
    { rewrite Hperm. rewrite <- Permutation_middle. by apply NoDup_cons. }
    { unfold st3. simpl in *. lia. }
    { unfold st3. simpl in *. lia. }
    { simpl in Hf. lia. }
    exists st', B1'. split; [done|]. split; [done|].
    split; [by rewrite Hperm', Hperm, <- Permutation_middle|].
    split; [rewrite Hused'; unfold st3; simpl; lia|].
    split; [by eapply moved_trans|].
    intros b Hb. rewrite Hfr'.
    + apply Hag. intros ->. apply Hb, elem_of_cons. by left.
    + intros ?. apply Hb, elem_of_cons. by right.
Qed.

Lemma skip_empty_spec h (arr : list Z) (B : list (list Z)) :
  Forall2 (is_chain h) arr B ->
  Z.of_nat (length B) < 2 ^ 31 ->
  forall (n : nat) idx0 fuel,
    0 <= idx0 ->
    (exists l, B !! (Z.to_nat idx0 + n)%nat = Some l /\ l <> []) ->
    (n < fuel)%nat ->
    exists idx p l,
      skip_empty fuel arr idx0 = Done idx
      /\ idx0 <= idx
      /\ arr !! Z.to_nat idx = Some p
      /\ B !! Z.to_nat idx = Some l /\ l <> [] /\ is_chain h p l
      /\ (forall i, idx0 <= Z.of_nat i < idx -> B !! i = Some []).
Proof.
  intros HF Hlen. induction n as [|n IH]; intros idx0 fuel Hidx (l & Hl & Hne) Hf;
    (destruct fuel as [|fuel]; [lia|]); simpl;
    (destruct (Z.ltb_spec idx0 0) as [?|_]; [lia|]).
  - rewrite Nat.add_0_r in Hl.
    destruct (Forall2_lookup_r _ _ _ _ _ HF Hl) as (p & Hp & Hc).
    rewrite Hp. destruct (Z.eqb_spec p 0) as [->|Hnz].
    { apply is_chain_null in Hc. done. }
    exists idx0, p, l. repeat split; try done; try lia; intros i Hi; lia.
  - assert (Hlt : (Z.to_nat idx0 + S n < length B)%nat) by (by apply lookup_lt_Some in Hl).
    destruct (lookup_lt_is_Some_2 B (Z.to_nat idx0)) as [l0 Hl0]; [lia|].
    destruct (Forall2_lookup_r _ _ _ _ _ HF Hl0) as (p & Hp & Hc).
    rewrite Hp. destruct (Z.eqb_spec p 0) as [->|Hnz].
    + apply is_chain_null in Hc. subst l0.
      rewrite wrap_int_small by lia.
      destruct (IH (idx0 + 1) fuel) as (idx & p' & l' & Hrun & Hle & Hp' & Hl' & Hne' & Hc' & Hz);
        [lia| |lia|].
      { exists l. split; [|done]. rewrite <- Hl. f_equal. lia. }
      exists idx, p', l'. repeat split; try done; try lia.
      intros i Hi. destruct (decide (Z.of_nat i = idx0)) as [Heq|Hneq].
      * rewrite <- Hl0. f_equal. lia.
      * apply Hz. lia.
    + exists idx0, p, l0. repeat split; try done; try lia.
      all: try (intros i Hi; lia).
      intros ->. simpl in Hc. done.
Qed.

#[local] Arguments skip_empty : simpl never.
#[local] Arguments rehash_bucket : simpl never.

Lemma rehash_migrate_spec st B0 B1 :
  wf st B0 B1 -> dictIsRehashing (dct st) = true -> used (ht0 (dct st)) <> 0 ->
  exists st' B0' B1',
    rehash_migrate st = Done st'
    /\ wf st' B0' B1'
    /\ dictIsRehashing (dct st') = true
    /\ preserved st st'
    /\ concat B0' ++ concat B1' ≡ₚ concat B0 ++ concat B1
    /\ rehashidx (dct st) < rehashidx (dct st')
    /\ rehashidx (dct st) < size (ht0 (dct st))
    /\ size (ht0 (dct st')) = size (ht0 (dct st)).
Proof.
  intros Hwf Hre Hused.
  pose proof (wf_t0 _ _ _ Hwf) as Hok0.
  pose proof (wf_t1 _ _ _ Hwf) as Hok1. rewrite Hre in Hok1. destruct Hok1 as [Hok1 Htne].
  pose proof (wf_nodup _ _ _ Hwf) as Hnd.
  pose proof (wf_count _ _ _ Hwf) as Hcount.
  destruct (wf_idx _ _ _ Hwf Hre) as [Hidx0 Hempty].
  pose proof (tok_size _ _ _ Hok0) as Hsz0. pose proof (tok_len _ _ _ Hok0) as Hlen0.
  pose proof (tok_used _ _ _ Hok0) as Hu0. pose proof (tok_used _ _ _ Hok1) as Hu1.
  destruct (tok_arr _ _ _ Hok0) as (arr & Harr & HF0).
  (* a bucket that is not empty lies at or after the rehash index *)
  destruct (concat_nonempty_lookup B0) as (j & lj & Hj & Hjne).
  { intros Hnil. rewrite Hnil in Hu0. simpl in Hu0. done. }
  assert (Hjlt : (j < length B0)%nat) by (by apply lookup_lt_Some in Hj).
  assert (Hjge : rehashidx (dct st) <= Z.of_nat j).
  { destruct (Z.le_gt_cases (rehashidx (dct st)) (Z.of_nat j)) as [|Hlt]; [done|].
    by destruct (Hjne (Hempty j lj Hlt Hj)). }
  destruct (skip_empty_spec _ arr B0 HF0 ltac:(lia)
              (j - Z.to_nat (rehashidx (dct st)))%nat (rehashidx (dct st))
              (S (length arr)))
    as (idx & p & l & Hskip & Hle & Hp & Hl & Hlne & Hc & Hz); [done| | |].
  { exists lj. split; [|done]. rewrite <- Hj. f_equal. lia. }
  { apply Forall2_length in HF0. lia. }
  assert (Hidxlt : (Z.to_nat idx < length B0)%nat) by (by apply lookup_lt_Some in Hl).
  set (st0 := set_dct st (set_rehashidx (dct st) idx)).
  (* the chain to move and the chains of table 1 *)
  pose proof (concat_insert_nil B0 _ l Hl) as Hperm0.
  assert (Hnd' : NoDup (l ++ concat B1)).
  { rewrite Hperm0, <- app_assoc in Hnd.
    apply NoDup_app in Hnd as (Hn1 & Hn2 & Hn3). apply NoDup_app in Hn3 as (_ & _ & Hn3).
    apply NoDup_app. split; [done|]. split; [|done].
    intros a Ha Ha'. apply (Hn2 a Ha). apply elem_of_app. by right. }
  assert (Hlenl : Z.of_nat (length l) <= Z.of_nat (length (concat B0))).
  { rewrite Hperm0, length_app. lia. }
  rewrite length_app in Hcount.
  assert (Hok1' : table_ok st0 (ht1 (dct st0)) B1).
  { destruct Hok1. by split. }
  destruct (rehash_bucket_spec l st0 p B1 (chain_fuel st0))
    as (st1 & B1' & Hrun & Hok1'' & Hperm1 & Hused1 & Hmv & Hframe);
    [done|done|done|simpl; lia|simpl; lia| |].
  { change (chain_fuel st0) with (chain_fuel st).
    eapply (table_ok_fuel st _ B0); [exact Hok0| |exact Hl].
    by apply NoDup_app in Hnd as (? & _). }
  destruct Hmv as [Hm1 Hm2 Hm3 Hm4 (Hm5 & Hm6 & Hm7) (Hm8 & Hm9 & Hm10) Hm11 Hm12].
  simpl in Hm1, Hm2, Hm3, Hm4, Hm5, Hm6, Hm7, Hm8, Hm9, Hm10, Hm11, Hm12, Hused1.
  assert (Harr1 : arrays st1 !! table (ht0 (dct st)) = Some arr).
  { rewrite Hm11; [done|]. done. }
  set (st' := set_dct
                (set_arrays st1 (<[table (ht0 (dct st)) := <[Z.to_nat idx := 0]> arr]>
                                   (arrays st1)))
                (set_rehashidx (dct st1) (idx + 1))).
  assert (Hrun' : rehash_migrate st = Done st').
  { unfold rehash_migrate, redis_assert. rewrite wrap_uint_small by lia.
    destruct (Z.ltb_spec (rehashidx (dct st)) (size (ht0 (dct st)))) as [_|?]; [|lia].
    simpl. rewrite Harr, Hskip. simpl. fold st0.
    unfold load_slot at 1. simpl. rewrite Harr.
    destruct (Z.ltb_spec idx 0) as [?|_]; [lia|]. rewrite Hp. simpl.
    rewrite Hrun. simpl. rewrite Hm5, Hm3.
    erewrite store_slot_ok; [|exact Harr1|lia|exact Hp]. simpl.
    rewrite Hm3, wrap_int_small by lia. reflexivity. }
  assert (Hag : forall a, a ∉ l -> entries st' !! a = entries st !! a).
  { intros a Ha. simpl. by rewrite Hframe. }
  assert (Hdisj : forall i li a, i <> Z.to_nat idx -> B0 !! i = Some li -> a ∈ li -> a ∉ l).
  { intros i li a Hi Hli Ha Hal.
    rewrite Hperm0 in Hnd. apply NoDup_app in Hnd as (Hnd & _).
    apply NoDup_app in Hnd as (_ & Hnd & _). apply (Hnd a Hal).
    apply elem_of_concat_lookup. exists i, li. split; [|done].
    by rewrite list_lookup_insert_ne. }
  assert (Hall : concat (<[Z.to_nat idx := []]> B0) ++ concat B1'
                 ≡ₚ concat B0 ++ concat B1).
  { rewrite Hperm1, Hperm0, (Permutation_app_comm l (concat (<[_ := _]> B0))).
    by rewrite <- app_assoc. }
  exists st', (<[Z.to_nat idx := []]> B0), B1'.
  split; [done|]. split; [|split; [|split; [|split; [|split; [|split]]]]].
  - split.
    + eapply type_ok_ext; [| |exact (wf_type _ _ _ Hwf)]; simpl; done.
    + split.
      * exists (<[Z.to_nat idx := 0]> arr). split.
        { simpl. rewrite Hm5. by rewrite lookup_insert_eq. }
        apply Forall2_same_length_lookup. split.
        { rewrite !length_insert. by eapply Forall2_length. }
        intros i q lq Hq Hlq. destruct (decide (i = Z.to_nat idx)) as [->|Hi].
        { rewrite list_lookup_insert_eq in Hq by (apply Forall2_length in HF0; lia).
          rewrite list_lookup_insert_eq in Hlq by lia. by simplify_eq. }
        rewrite list_lookup_insert_ne in Hq by done.
        rewrite list_lookup_insert_ne in Hlq by done.
        eapply is_chain_agree; [exact (Forall2_lookup_lr _ _ _ _ _ _ HF0 Hq Hlq)|].
        intros a Ha. apply Hag. by eapply Hdisj.
      * rewrite length_insert. simpl. rewrite Hm6. done.
      * simpl. rewrite Hm6. done.
      * simpl. rewrite Hm6, Hm7. exact (tok_mask _ _ _ Hok0).
      * simpl. rewrite Hused1, Hu0, Hperm0, length_app. lia.
      * intros i li a e Hli Ha He. simpl. rewrite Hm7.
        unfold dictHashKey. simpl. rewrite Hm1. fold (dictHashKey (dct st) (key e)).
        destruct (decide (i = Z.to_nat idx)) as [->|Hi].
        { rewrite list_lookup_insert_eq in Hli by lia. simplify_eq.
          by apply elem_of_nil in Ha. }
        rewrite list_lookup_insert_ne in Hli by done.
        rewrite Hag in He by (by eapply Hdisj).
        by apply (tok_place _ _ _ Hok0 i li a e).
      * simpl. rewrite Hm5. exact (tok_table _ _ _ Hok0).
    + assert (Hre' : dictIsRehashing (dct st') = true).
      { unfold dictIsRehashing. simpl. destruct (Z.eqb_spec (idx + 1) (-1)); [lia|done]. }
      rewrite Hre'. split.
      * destruct Hok1'' as [(arr1 & Harr1' & HF1) H2 H3 H4 H5 H6 H7]. split; try done.
        exists arr1. split; [|done]. simpl. rewrite lookup_insert_ne; [done|].
        rewrite Hm8. done.
      * simpl. rewrite Hm5, Hm8. done.
    + by rewrite Hall.
    + rewrite Hall, length_app. lia.
    + intros a b ea eb Ha Hb Hea Heb Hcmp.
      rewrite Hall in Ha, Hb.
      pose proof (Hm12 a) as Ha12. pose proof (Hm12 b) as Hb12.
      simpl in Hea, Heb. rewrite Hea in Ha12. rewrite Heb in Hb12.
      inversion Ha12 as [ea0 ? [Hka _] Hea0|]; inversion Hb12 as [eb0 ? [Hkb _] Heb0|].
      simplify_eq.
      eapply (wf_keys _ _ _ Hwf a b ea0 eb0); try done.
      unfold dictCompareKeys in *. simpl in Hcmp. rewrite Hm1, Hm2 in Hcmp.
      by rewrite <- Hka, <- Hkb.
    + intros _. simpl. split; [lia|].
      intros i li Hi Hli. destruct (decide (i = Z.to_nat idx)) as [->|Hne].
      { rewrite list_lookup_insert_eq in Hli by lia. by simplify_eq. }
      rewrite list_lookup_insert_ne in Hli by done.
      destruct (Z.lt_ge_cases (Z.of_nat i) (rehashidx (dct st))) as [Hlo|Hhi].
      * by apply (Hempty i li).
      * rewrite (Hz i) in Hli by lia. by simplify_eq.
  - unfold dictIsRehashing. simpl. destruct (Z.eqb_spec (idx + 1) (-1)); [lia|done].
  - split; simpl; try done.
    pose proof (tok_used _ _ _ Hok1'') as Hu1'.
    rewrite Hu1', Hused1, Hu0, Hu1, Hperm1, Hperm0, !length_app. lia.
  - done.
  - simpl. lia.
  - lia.
  - simpl. done.
Qed.

(** The completion branch: table 1 takes the place of table 0. *)
Lemma rehash_complete_spec st B0 B1 :
  wf st B0 B1 -> dictIsRehashing (dct st) = true -> used (ht0 (dct st)) = 0 ->
  let st' := set_dct (zfree_table st (table (ht0 (dct st))))
               (set_rehashidx (set_ht1 (set_ht0 (dct st) (ht1 (dct st))) _dictReset) (-1)) in
  wf st' B1 [] /\ preserved st st' /\ concat B1 ++ concat [] ≡ₚ concat B0 ++ concat B1.
Proof.
  intros Hwf Hre Hused st'.
  pose proof (wf_t0 _ _ _ Hwf) as Hok0.
  pose proof (wf_t1 _ _ _ Hwf) as Hok1. rewrite Hre in Hok1. destruct Hok1 as [Hok1 Htne].
  assert (Hnil : concat B0 = []).
  { pose proof (tok_used _ _ _ Hok0) as Hu. rewrite Hused in Hu.
    destruct (concat B0); [done|simpl in Hu; lia]. }
  assert (Hent : entries st' = entries st).
  { unfold st', zfree_table. by destruct (_ =? 0). }
  assert (Harr : arrays st' !! table (ht1 (dct st)) = arrays st !! table (ht1 (dct st))).
  { unfold st', zfree_table. destruct (_ =? 0); [done|]. simpl.
    by rewrite lookup_delete_ne. }
  assert (Hperm : concat B1 ++ concat [] ≡ₚ concat B0 ++ concat B1).
  { rewrite Hnil. simpl. by rewrite app_nil_r. }
  split; [|split; [|done]].
  - split.
    + eapply type_ok_ext; [| |exact (wf_type _ _ _ Hwf)]; done.
    + destruct Hok1 as [(arr & Ha & HF) H2 H3 H4 H5 H6 H7]. split; try done.
      * exists arr. rewrite Hent. split; [|done]. simpl in Harr |- *. by rewrite Harr.
      * intros i l a e Hi Ha' He. rewrite Hent in He. by apply (H6 i l a e).
    + done.
    + rewrite Hperm. exact (wf_nodup _ _ _ Hwf).
    + rewrite Hperm. exact (wf_count _ _ _ Hwf).
    + intros a b ea eb Ha Hb Hea Heb Hcmp. rewrite Hperm in Ha, Hb. rewrite Hent in Hea, Heb.
      by apply (wf_keys _ _ _ Hwf a b ea eb).
    + done.
  - split; try done.
    + intros a. rewrite Hent. destruct (entries st !! a); by constructor.
    + simpl. lia.
Qed.

Lemma rehash_steps_spec n : forall st B0 B1,
  wf st B0 B1 -> dictIsRehashing (dct st) = true ->
  exists st' r B0' B1',
    rehash_steps n st = Done (st', r)
    /\ wf st' B0' B1'
    /\ preserved st st'
    /\ concat B0' ++ concat B1' ≡ₚ concat B0 ++ concat B1.
Proof.
  induction n as [|n IH]; intros st B0 B1 Hwf Hre.
  - exists st, None, B0, B1. split; [done|]. split; [done|].
    split; [apply preserved_refl|done].
  - simpl. destruct (Z.eqb_spec (used (ht0 (dct st))) 0) as [Hz|Hnz].
    + destruct (rehash_complete_spec st B0 B1 Hwf Hre Hz) as (Hwf' & Hpr & Hperm).
      eexists _, (Some 0), B1, []. split; [done|]. done.
    + destruct (rehash_migrate_spec st B0 B1 Hwf Hre Hnz)
        as (st1 & B0' & B1' & Hrun & Hwf' & Hre' & Hpr & Hperm & _).
      rewrite Hrun. simpl.
      destruct (IH st1 B0' B1' Hwf' Hre') as (st2 & r & B0'' & B1'' & Hrun2 & Hwf2 & Hpr2 & Hperm2).
      exists st2, r, B0'', B1''. split; [done|]. split; [done|].
      split; [by eapply preserved_trans|]. by rewrite Hperm2.
Qed.

Lemma dictRehash_spec st B0 B1 n :
  wf st B0 B1 ->
  exists st' r B0' B1',
    dictRehash st n = Done (st', r)
    /\ wf st' B0' B1'
    /\ preserved st st'
    /\ concat B0' ++ concat B1' ≡ₚ concat B0 ++ concat B1.
Proof.
  intros Hwf. unfold dictRehash. destruct (dictIsRehashing (dct st)) eqn:Hre; simpl.
  - by apply rehash_steps_spec.
  - exists st, (Some 0), B0, B1. split; [done|]. split; [done|].
    split; [apply preserved_refl|done].
Qed.

Lemma matches_preserved st st' k a :
  preserved st st' -> matches st' k a <-> matches st k a.
Proof.
  intros Hpr. pose proof (pr_entries _ _ Hpr a) as Ha. unfold matches, dictCompareKeys.
  rewrite (pr_type _ _ Hpr), (pr_priv _ _ Hpr).
  split; intros (e & He & Hc); rewrite He in Ha; inversion Ha as [? ? [Hk _]|]; simplify_eq.
  - eexists. split; [done|]. by rewrite <- Hk.
  - eexists. split; [done|]. by rewrite Hk.
Qed.

Lemma finds_preserved st st' l l' k r :
  preserved st st' -> l' ≡ₚ l -> finds st' l' k r <-> finds st l k r.
Proof.
  intros Hpr Hperm. unfold finds.
  rewrite (matches_preserved st st' k r Hpr).
  assert (Hin : forall a, a ∈ l' <-> a ∈ l) by (intros a; by rewrite Hperm).
  rewrite Hin.
  assert ((forall a, a ∈ l' -> ~ matches st' k a) <-> (forall a, a ∈ l -> ~ matches st k a)).
  { split; intros H a Ha Hm.
    - apply (H a); [by apply Hin|]. by apply (matches_preserved st st' k a Hpr).
    - apply (H a); [by apply Hin|]. by apply (matches_preserved st st' k a Hpr). }
  tauto.
Qed.

(** [dictFind] on a well-formed dict returns, and answers with the node
    that matches the key among the nodes of both tables. *)
Lemma dictFind_spec st B0 B1 k :
  wf st B0 B1 ->
  exists st' r,
    dictFind st k = Done (st', r)
    /\ finds st (concat B0 ++ concat B1) k r
    /\ preserved st st'
    /\ well_formed st'.
Proof.
  intros Hwf. unfold dictFind.
  pose proof (tok_size _ _ _ (wf_t0 _ _ _ Hwf)) as Hsz.
  destruct (Z.eqb_spec (size (ht0 (dct st))) 0) as [?|_]; [lia|].
  assert (Hstep : exists st1 B0' B1',
            (if dictIsRehashing (dct st) then _dictRehashStep st else Done st) = Done st1
            /\ wf st1 B0' B1' /\ preserved st st1
            /\ concat B0' ++ concat B1' ≡ₚ concat B0 ++ concat B1).
  { destruct (dictIsRehashing (dct st)).
    - unfold _dictRehashStep. destruct (iterators (dct st) =? 0).
      + destruct (dictRehash_spec st B0 B1 1 Hwf) as (st1 & r & B0' & B1' & Hrun & H).
        rewrite Hrun. simpl. by exists st1, B0', B1'.
      + exists st, B0, B1. split; [done|]. split; [done|]. split; [apply preserved_refl|done].
    - exists st, B0, B1. split; [done|]. split; [done|]. split; [apply preserved_refl|done]. }
  destruct Hstep as (st1 & B0' & B1' & -> & Hwf1 & Hpr & Hperm). simpl.
  destruct (find_tables_spec st1 B0' B1' k Hwf1) as (r & -> & Hf). simpl.
  exists st1, r. split; [done|]. split; [by apply (finds_preserved st st1 _ _ k r Hpr Hperm)|].
  split; [done|]. by exists B0', B1'.
Qed.

Lemma rehash_calls_spec m : forall st B0 B1,
  wf st B0 B1 ->
  exists st' B0' B1',
    rehash_calls m st = Done st'
    /\ wf st' B0' B1'
    /\ preserved st st'
    /\ concat B0' ++ concat B1' ≡ₚ concat B0 ++ concat B1.
Proof.
  induction m as [|m IH]; intros st B0 B1 Hwf.
  - exists st, B0, B1. split; [done|]. split; [done|]. split; [apply preserved_refl|done].
  - destruct (dictRehash_spec st B0 B1 1 Hwf) as (st1 & r & B0' & B1' & Hrun & Hwf1 & Hpr & Hperm).
    destruct (IH st1 B0' B1' Hwf1) as (st2 & B0'' & B1'' & Hrun2 & Hwf2 & Hpr2 & Hperm2).
    exists st2, B0'', B1''. simpl. rewrite Hrun. simpl. split; [done|]. split; [done|].
    split; [by eapply preserved_trans|]. by rewrite Hperm2.
Qed.

Lemma value_at_preserved st st' r :
  preserved st st' -> value_at st' r = value_at st r.
Proof.
  intros Hpr. unfold value_at. destruct (r =? 0); [done|].
  pose proof (pr_entries _ _ Hpr r) as Hr.
  destruct Hr as [e e' [_ Hv]|]; [|done]. done.
Qed.

Lemma dictFetchValue_spec st B0 B1 k :
  wf st B0 B1 ->
  exists st' r,
    dictFind st k = Done (st', r)
    /\ dictFetchValue st k = Done (st', value_at st r)
    /\ finds st (concat B0 ++ concat B1) k r.
Proof.
  intros Hwf. destruct (dictFind_spec st B0 B1 k Hwf) as (st' & r & Hrun & Hf & Hpr & _).
  exists st', r. split; [done|]. split; [|done].
  unfold dictFetchValue. rewrite Hrun. simpl.
  rewrite <- (value_at_preserved st st' r Hpr). unfold value_at.
  destruct (Z.eqb_spec r 0) as [->|Hnz]; [done|].
  destruct Hf as [[-> _]|[_ Hm]]; [done|].
  apply (matches_preserved st st' k r Hpr) in Hm. destruct Hm as (e & He & _).
  rewrite (load_entry_ok st' r e) by done. simpl. by rewrite He.
Qed.

(** The migration ends: after finitely many calls [dictRehash(d, 1)] the
    dict is no longer rehashing. *)
Lemma rehash_calls_complete (n : nat) : forall st B0 B1,
  wf st B0 B1 -> dictIsRehashing (dct st) = true ->
  size (ht0 (dct st)) - rehashidx (dct st) <= Z.of_nat n ->
  exists m st', rehash_calls m st = Done st' /\ dictIsRehashing (dct st') = false.
Proof.
  induction n as [|n IH]; intros st B0 B1 Hwf Hre Hn.
  - destruct (Z.eqb_spec (used (ht0 (dct st))) 0) as [Hz|Hnz].
    + exists 1%nat. eexists. simpl. unfold dictRehash. rewrite Hre. simpl.
      apply Z.eqb_eq in Hz as ->. simpl. split; [reflexivity|done].
    + destruct (rehash_migrate_spec st B0 B1 Hwf Hre Hnz)
        as (st1 & B0' & B1' & _ & _ & _ & _ & _ & _ & Hlt & _). lia.
  - destruct (Z.eqb_spec (used (ht0 (dct st))) 0) as [Hz|Hnz].
    + exists 1%nat. eexists. simpl. unfold dictRehash. rewrite Hre. simpl.
      apply Z.eqb_eq in Hz as ->. simpl. split; [reflexivity|done].
    + destruct (rehash_migrate_spec st B0 B1 Hwf Hre Hnz)
        as (st1 & B0' & B1' & Hrun & Hwf1 & Hre1 & _ & _ & Hinc & Hlt & Hsz).
      destruct (IH st1 B0' B1' Hwf1 Hre1) as (m & st' & Hm & Hdone); [lia|].
      exists (S m), st'. simpl. unfold dictRehash. rewrite Hre. simpl.
      apply Z.eqb_neq in Hnz as ->. rewrite Hrun. simpl. done.
Qed.

(** C3.  From a well-formed dict that is rehashing, any number [m] of
    calls [dictRehash(d, 1)] runs to the end, and at each of these
    intermediate states [dictFind] returns for every key the same node
    and [dictFetchValue] the same value as at the start, and the total
    [dictSize] is the one of the start; after some number of calls the
    migration is complete. *)
Theorem rehash_preserves_find_and_size (st : state) (m : nat) :
  well_formed st -> dictIsRehashing (dct st) = true ->
  (exists st_m,
    rehash_calls m st = Done st_m
    /\ well_formed st_m
    /\ dictSize (dct st_m) = dictSize (dct st)
    /\ forall k, exists s s_m p v,
         dictFind st k = Done (s, p) /\ dictFind st_m k = Done (s_m, p)
         /\ dictFetchValue st k = Done (s, v) /\ dictFetchValue st_m k = Done (s_m, v))
  /\ (exists m_end st_end,
        rehash_calls m_end st = Done st_end /\ dictIsRehashing (dct st_end) = false).
Proof.
  intros (B0 & B1 & Hwf) Hre. split.
  2:{ apply (rehash_calls_complete
               (Z.to_nat (size (ht0 (dct st)) - rehashidx (dct st))) st B0 B1 Hwf Hre).
      lia. }
  destruct (rehash_calls_spec m st B0 B1 Hwf) as (st_m & B0' & B1' & Hrun & Hwf' & Hpr & Hperm).
  exists st_m. split; [done|]. split; [by exists B0', B1'|]. split.
  { unfold dictSize. by rewrite (pr_used _ _ Hpr). }
  intros k.
  destruct (dictFetchValue_spec st B0 B1 k Hwf) as (s & p & Hfind & Hval & Hf).
  destruct (dictFetchValue_spec st_m B0' B1' k Hwf') as (s_m & p' & Hfind' & Hval' & Hf').
  apply (finds_preserved st st_m _ _ k p' Hpr Hperm) in Hf'.
  assert (p' = p) as -> by exact (finds_unique st B0 B1 k p' p Hwf Hf' Hf).
  exists s, s_m, p, (value_at st p). split; [done|]. split; [done|]. split; [done|].
  by rewrite Hval', (value_at_preserved st st_m p Hpr).
Qed.

Lemma int_type_ok dd : type dd = int_type -> type_ok dd.
Proof.
  intros Hty. split; unfold dictCompareKeys, dictHashKey; rewrite Hty; simpl.
  - intros k x y Hx Hy. apply Z.eqb_eq in Hx, Hy. apply Z.eqb_eq. congruence.
  - intros k x Hx. apply Z.eqb_eq in Hx. by subst.
Qed.

Lemma ex_rehashing_wf : well_formed ex_rehashing.
Proof.
  exists [[]; [304]; []; [256; 280]], (replicate 8 []).
  split.
  - by apply int_type_ok.
  - split; try done.
    + exists [0; 304; 0; 256]. split; [done|].
      repeat constructor; simpl; try done;
        repeat (split; [done|]); eexists; (split; [reflexivity|]); simpl; try done.
      repeat (split; [done|]). eexists. split; [reflexivity|]. done.
    + intros i l a e Hi Ha He.
      destruct i as [|[|[|[|i]]]]; simpl in Hi; simplify_eq;
        repeat (apply elem_of_cons in Ha as [->|Ha]);
        try (by apply elem_of_nil in Ha);
        vm_compute in He; simplify_eq; reflexivity.
  - simpl. split; [|done]. split; try done.
    + exists (replicate 8 0). split; [done|]. repeat constructor.
    + intros i l a e Hi Ha He.
      assert (l = []) as ->
        by (destruct i as [|[|[|[|[|[|[|[|i]]]]]]]]; simpl in Hi; by simplify_eq).
      by apply elem_of_nil in Ha.
  - simpl. by apply (bool_decide_unpack _).
  - simpl. lia.
  - intros a b ea eb Ha Hb Hea Heb Hcmp. simpl in Ha, Hb.
    unfold dictCompareKeys in Hcmp. simpl in Hcmp. apply Z.eqb_eq in Hcmp.
    repeat (apply elem_of_cons in Ha as [->|Ha]); try (by apply elem_of_nil in Ha);
      repeat (apply elem_of_cons in Hb as [->|Hb]); try (by apply elem_of_nil in Hb);
      vm_compute in Hea; vm_compute in Heb; simplify_eq; done.
  - intros _. simpl. split; [lia|]. intros i l Hi. lia.
Qed.

(** The theorem at [ex_rehashing], for two calls. *)
Lemma rehash_preserves_find_and_size_witness :
  well_formed ex_rehashing
  /\ dictIsRehashing (dct ex_rehashing) = true
  /\ exists st_m, rehash_calls 2 ex_rehashing = Done st_m
                  /\ dictSize (dct st_m) = dictSize (dct ex_rehashing).
Proof.
  split; [exact ex_rehashing_wf|]. split; [reflexivity|].
  destruct (rehash_preserves_find_and_size ex_rehashing 2 ex_rehashing_wf eq_refl)
    as [(st_m & Hrun & _ & Hsize & _) _].
  exists st_m. split; assumption.
Defined.

(** C4 fails on the code.  On the rehashing example one call
    [dictRehash(d, 1)] migrates a bucket, leaves two entries in table 0 and
    the dict rehashing, and ends without returning a value. *)
Theorem rehash_call_returns_no_value :
  ('(s, r) ← dictRehash ex_rehashing 1;
   Done (r, used (ht0 (dct s)), rehashidx (dct s), dictIsRehashing (dct s)))
  = Done (None, 2, 2, true).
Proof. vm_compute. done. Qed.

(** No call returns a value other than 0. *)
Lemma rehash_steps_value n : forall st st' r,
  rehash_steps n st = Done (st', r) -> r = None \/ r = Some 0.
Proof.
  induction n as [|n IH]; intros st st' r; simpl.
  - intros [= <- <-]. by left.
  - destruct (used (ht0 (dct st)) =? 0).
    + intros [= <- <-]. by right.
    + destruct (rehash_migrate st) as [st1| | |]; simpl; try done. apply IH.
Qed.

Lemma dictRehash_value st n st' r :
  dictRehash st n = Done (st', r) -> r = None \/ r = Some 0.
Proof.
  unfold dictRehash. destruct (negb (dictIsRehashing (dct st))).
  - intros [= <- <-]. by right.
  - apply rehash_steps_value.
Qed.

(** A call that returns 0 from a rehashing dict has completed the
    migration: table 1 has been promoted and reset, the cursor is -1. *)
Lemma rehash_steps_zero n : forall st st',
  rehash_steps n st = Done (st', Some 0) ->
  exists st0, used (ht0 (dct st0)) = 0
              /\ ht0 (dct st') = ht1 (dct st0)
              /\ ht1 (dct st') = _dictReset
              /\ rehashidx (dct st') = -1
              /\ arrays st' = arrays (zfree_table st0 (table (ht0 (dct st0)))).
Proof.
  induction n as [|n IH]; intros st st'; simpl; [done|].
  destruct (Z.eqb_spec (used (ht0 (dct st))) 0) as [Hz|_].
  - intros [= <-]. exists st. repeat split; done.
  - destruct (rehash_migrate st) as [st1| | |]; simpl; try done. apply IH.
Qed.

Lemma dictRehash_not_rehashing st n :
  dictIsRehashing (dct st) = false -> dictRehash st n = Done (st, Some 0).
Proof. intros Hre. unfold dictRehash. by rewrite Hre. Qed.

(** ** Table sizes (C7) *)

(** One smearing step [s |= s >> a] doubles the window of bits that are
    or-ed into each position. *)
Lemma smear_step x y a :
  0 < a ->
  (forall n, 0 <= n -> Z.testbit y n = true <-> exists j, 0 <= j < a /\ Z.testbit x (n + j) = true) ->
  forall n, 0 <= n ->
    Z.testbit (Z.lor y (Z.shiftr y a)) n = true
    <-> exists j, 0 <= j < 2 * a /\ Z.testbit x (n + j) = true.
Proof.
  intros Ha Hy n Hn. rewrite Z.lor_spec, Z.shiftr_spec, orb_true_iff by lia.
  rewrite (Hy n), (Hy (n + a)) by lia. split.
  - intros [(j & Hj & Hb)|(j & Hj & Hb)].
    + exists j. split; [lia|done].
    + exists (a + j). split; [lia|]. by rewrite Z.add_assoc.
  - intros (j & Hj & Hb). destruct (Z.lt_ge_cases j a).
    + left. exists j. split; [lia|done].
    + right. exists (j - a). split; [lia|]. by replace (n + a + (j - a)) with (n + j) by lia.
Qed.

Lemma smear_testbit x n :
  0 <= n ->
  Z.testbit (smear x) n = true <-> exists j, 0 <= j < 32 /\ Z.testbit x (n + j) = true.
Proof.
  revert n. unfold smear.
  apply (smear_step x _ 16); [lia|].
  apply (smear_step x _ 8); [lia|].
  apply (smear_step x _ 4); [lia|].
  apply (smear_step x _ 2); [lia|].
  apply (smear_step x _ 1); [lia|].
  intros n Hn. split.
  - intros Hb. exists 0. split; [lia|]. by rewrite Z.add_0_r.
  - intros (j & Hj & Hb). by replace (n + j) with n in Hb by lia.
Qed.

Lemma smear_ones x : 0 < x < 2 ^ 32 -> smear x = Z.ones (Z.log2 x + 1).
Proof.
  intros Hx.
  assert (Hlog : 0 <= Z.log2 x < 32).
  { split; [apply Z.log2_nonneg|]. apply Z.log2_lt_pow2; lia. }
  apply Z.bits_inj'. intros n Hn.
  rewrite Z.testbit_ones_nonneg by lia.
  apply eq_true_iff_eq. rewrite smear_testbit by lia. rewrite Z.ltb_lt. split.
  - intros (j & Hj & Hb).
    destruct (Z.lt_ge_cases (Z.log2 x) (n + j)) as [Hgt|]; [|lia].
    rewrite Z.bits_above_log2 in Hb by lia. done.
  - intros Hlt. exists (Z.log2 x - n). split; [lia|].
    replace (n + (Z.log2 x - n)) with (Z.log2 x) by lia. apply Z.bit_log2. lia.
Qed.

Lemma _dictNextPower_mid sz :
  DICT_HT_INITIAL_SIZE <= sz <= UINT32_MAX ->
  _dictNextPower sz = 2 ^ (Z.log2 (sz - 1) + 1).
Proof.
  unfold DICT_HT_INITIAL_SIZE, UINT32_MAX. intros Hsz. unfold _dictNextPower.
  unfold DICT_HT_INITIAL_SIZE, UINT32_MAX.
  destruct (Z.ltb_spec sz 4) as [?|_]; [lia|].
  destruct (Z.gtb_spec sz 4294967295) as [?|_]; [lia|].
  rewrite (wrap_ulong_small (sz - 1)) by lia.
  fold (smear (sz - 1)). rewrite smear_ones by lia.
  rewrite Z.ones_equiv.
  assert (Hlog : 0 <= Z.log2 (sz - 1) < 32).
  { split; [apply Z.log2_nonneg|]. apply Z.log2_lt_pow2; lia. }
  assert (2 ^ (Z.log2 (sz - 1) + 1) <= 2 ^ 32) by (apply Z.pow_le_mono_r; lia).
  assert (0 < 2 ^ (Z.log2 (sz - 1) + 1)) by (apply Z.pow_pos_nonneg; lia).
  rewrite wrap_ulong_small by lia. lia.
Qed.

Lemma _dictNextPower_next_pow2 sz :
  DICT_HT_INITIAL_SIZE <= sz <= UINT32_MAX -> next_pow2 sz (_dictNextPower sz).
Proof.
  intros Hsz. rewrite _dictNextPower_mid by done.
  unfold DICT_HT_INITIAL_SIZE, UINT32_MAX in Hsz.
  pose proof (Z.log2_spec (sz - 1) ltac:(lia)) as [Hlo Hhi].
  pose proof (Z.log2_nonneg (sz - 1)) as Hnn.
  replace (Z.succ (Z.log2 (sz - 1))) with (Z.log2 (sz - 1) + 1) in Hhi by lia.
  split; [|split].
  - exists (Z.log2 (sz - 1) + 1). split; [lia|done].
  - lia.
  - intros p (k & Hk & ->) Hp.
    apply Z.pow_le_mono_r; [lia|].
    destruct (Z.lt_ge_cases k (Z.log2 (sz - 1) + 1)) as [Hlt|]; [|lia].
    assert (2 ^ k <= 2 ^ Z.log2 (sz - 1)) by (apply Z.pow_le_mono_r; lia). lia.
Qed.

Lemma _dictNextPower_cases sz :
  0 <= sz ->
  (sz < DICT_HT_INITIAL_SIZE /\ _dictNextPower sz = DICT_HT_INITIAL_SIZE)
  \/ (DICT_HT_INITIAL_SIZE <= sz <= UINT32_MAX /\ next_pow2 sz (_dictNextPower sz))
  \/ (UINT32_MAX < sz /\ _dictNextPower sz = UINT32_MAX).
Proof.
  intros Hsz. destruct (Z.lt_ge_cases sz DICT_HT_INITIAL_SIZE) as [Hlo|Hlo].
  - left. split; [done|]. unfold _dictNextPower.
    destruct (Z.ltb_spec sz DICT_HT_INITIAL_SIZE); [done|lia].
  - destruct (Z.le_gt_cases sz UINT32_MAX) as [Hhi|Hhi].
    + right. left. split; [lia|]. by apply _dictNextPower_next_pow2.
    + right. right. split; [done|]. unfold _dictNextPower.
      destruct (Z.ltb_spec sz DICT_HT_INITIAL_SIZE); [lia|].
      destruct (Z.gtb_spec sz UINT32_MAX); [done|lia].
Qed.


Lemma _dictNextPower_min sz : 0 <= sz -> DICT_HT_INITIAL_SIZE <= _dictNextPower sz.
Proof.
  intros Hsz.
  destruct (_dictNextPower_cases sz Hsz) as [[_ ->]|[[Hmid (_ & Hle & _)]|[_ ->]]].
  - lia.
  - lia.
  - unfold DICT_HT_INITIAL_SIZE, UINT32_MAX. lia.
Qed.


Lemma dictExpand_ok st target :
  dictIsRehashing (dct st) = false -> used (ht0 (dct st)) <= target ->
  let realsize := _dictNextPower target in
  let n := Dictht (Z.pos (brk st)) realsize (wrap_ulong (realsize - 1)) 0 in
  let st1 := set_brk (set_arrays st (<[Z.pos (brk st) := replicate (Z.to_nat realsize) 0]>
                                       (arrays st)))
                     (brk st + Z.to_pos (8 * realsize)) in
  dictExpand st target
  = if table (ht0 (dct st)) =? 0
    then (set_dct st1 (set_ht0 (dct st) n), DICT_OK)
    else (set_dct st1 (set_rehashidx (set_ht1 (dct st) n) 0), DICT_OK).
Proof.
  intros Hre Hu. unfold dictExpand. rewrite Hre. simpl.
  destruct (Z.gtb_spec (used (ht0 (dct st))) target); [lia|]. reflexivity.
Qed.





(** ** From an expansion to the end of the migration *)

(** An expansion of a well-formed dict that is not rehashing leaves a
    well-formed dict that is: the entries are where they were and table 1
    is a fresh array of empty buckets. *)
Lemma dictExpand_starts_rehash st B0 target :
  wf st B0 [] -> dictIsRehashing (dct st) = false ->
  used (ht0 (dct st)) <= target ->
  _dictNextPower target < 2 ^ 31 ->
  arrays st !! Z.pos (brk st) = None ->
  let st' := fst (dictExpand st target) in
  snd (dictExpand st target) = DICT_OK
  /\ wf st' B0 (replicate (Z.to_nat (_dictNextPower target)) [])
  /\ dictIsRehashing (dct st') = true
  /\ preserved st st'.
Proof.
  intros Hwf Hre Hu Hsmall Hfresh. simpl.
  pose proof (wf_t0 _ _ _ Hwf) as Hok0.
  pose proof (tok_table _ _ _ Hok0) as Hnn.
  pose proof (tok_used _ _ _ Hok0) as Hused.
  pose proof (_dictNextPower_min target ltac:(lia)) as Hmin.
  unfold DICT_HT_INITIAL_SIZE in Hmin.
  rewrite (dictExpand_ok st target Hre Hu). rewrite (proj2 (Z.eqb_neq _ _) Hnn). simpl.
  set (n := _dictNextPower target) in *.
  destruct (tok_arr _ _ _ Hok0) as (arr0 & Harr0 & HF0).
  assert (Hne : Z.pos (brk st) <> table (ht0 (dct st))).
  { intros Heq. rewrite Heq in Hfresh. congruence. }
  split; [done|]. split; [|split].
  - split.
    + eapply type_ok_ext; [| |exact (wf_type _ _ _ Hwf)]; done.
    + destruct Hok0 as [_ H2 H3 H4 H5 H6 H7]. split; try done.
      exists arr0. split; [|done]. simpl. by rewrite lookup_insert_ne.
    + simpl. split; [|by apply not_eq_sym]. split; simpl.
      * exists (replicate (Z.to_nat n) 0). split; [by rewrite lookup_insert_eq|].
        apply Forall2_replicate. done.
      * rewrite length_replicate. lia.
      * lia.
      * rewrite wrap_ulong_small by lia. done.
      * by rewrite concat_replicate_nil.
      * intros i l a e Hi Ha. apply lookup_replicate in Hi as [-> _].
        by apply elem_of_nil in Ha.
      * done.
    + rewrite concat_replicate_nil. exact (wf_nodup _ _ _ Hwf).
    + rewrite concat_replicate_nil. exact (wf_count _ _ _ Hwf).
    + rewrite concat_replicate_nil. exact (wf_keys _ _ _ Hwf).
    + intros _. simpl. split; [lia|]. intros i l Hi. lia.
  - done.
  - split; try done.
    + intros a. simpl. destruct (entries st !! a); by constructor.
    + simpl. pose proof (wf_t1 _ _ _ Hwf) as Ht1. rewrite Hre in Ht1.
      destruct Ht1 as [_ ->]. simpl. lia.
Qed.

(** An expansion followed by any number of rehash calls: the lookups and
    the size stay what they were before the expansion. *)
Lemma expand_then_rehash st B0 target m k :
  wf st B0 [] -> dictIsRehashing (dct st) = false ->
  used (ht0 (dct st)) <= target ->
  _dictNextPower target < 2 ^ 31 ->
  arrays st !! Z.pos (brk st) = None ->
  exists st_m s s_m p,
    rehash_calls m (fst (dictExpand st target)) = Done st_m
    /\ dictSize (dct st_m) = dictSize (dct st)
    /\ dictFind st k = Done (s, p) /\ dictFind st_m k = Done (s_m, p).
Proof.
  intros Hwf Hre Hu Hsmall Hfresh.
  destruct (dictExpand_starts_rehash st B0 target Hwf Hre Hu Hsmall Hfresh)
    as (_ & Hwf1 & _ & Hpr1).
  set (st1 := fst (dictExpand st target)) in *.
  set (B1 := replicate _ _) in *.
  destruct (rehash_calls_spec m st1 B0 B1 Hwf1)
    as (st_m & B0' & B1' & Hrun & Hwf' & Hpr & Hperm).
  destruct (dictFind_spec st B0 [] k Hwf) as (s & p & Hfind & Hf & _).
  destruct (dictFind_spec st_m B0' B1' k Hwf') as (s_m & p' & Hfind' & Hf' & _).
  assert (Hpr2 : preserved st st_m) by (by eapply preserved_trans).
  assert (Hperm2 : concat B0' ++ concat B1' ≡ₚ concat B0 ++ concat []).
  { rewrite Hperm. unfold B1. by rewrite concat_replicate_nil. }
  apply (finds_preserved st st_m _ _ k p' Hpr2 Hperm2) in Hf'.
  assert (p' = p) as -> by exact (finds_unique st B0 [] k p' p Hwf Hf' Hf).
  exists st_m, s, s_m, p. split; [done|]. split; [|done].
  unfold dictSize. by rewrite (pr_used _ _ Hpr2).
Qed.

(** ** Growth policy (C6) *)




(** ** Insertion and replacement (C1, C2) *)

(** The first insertion into a dict that [dictCreate] has just made ends
    in an invalid memory access, whatever the callbacks, the key and the
    value: the bucket the key hashes to is empty, and [dictAddRaw] writes
    the [next] field of the node the bucket points to. *)
Lemma dictAdd_fresh_segv (ty : dictType) (privDataPtr : Z) (st0 : state) (k v : Z) :
  dictAdd (dictCreate ty privDataPtr st0) k v = Segv.
Proof.
  unfold dictAdd, dictAddRaw. simpl.
  unfold dictAddRaw_link, _dictKeyIndex, _dictExpandIfNeeded. simpl.
  unfold dictExpand. simpl.
  change (_dictNextPower DICT_HT_INITIAL_SIZE) with 4.
  change (wrap_ulong (4 - 1)) with 3.
  set (st1 := set_dct _ _).
  assert (Harr1 : arrays st1 !! Z.pos (brk st0) = Some [0; 0; 0; 0]).
  { unfold st1. simpl. by rewrite lookup_insert_eq. }
  destruct (hash_index_range (dct st1) k 3) as [Hr1 Hr2]; [lia|].
  unfold find_in_table. change (sizemask (ht (dct st1) 0)) with 3.
  change (table (ht (dct st1) 0)) with (Z.pos (brk st0)).
  set (idx := Z.land (dictHashKey _ k) 3) in *.
  rewrite !(wrap_uint_small idx) by lia.
  rewrite (load_slot_zeros st1 _ idx Harr1) by lia. simpl.
  rewrite wrap_int_small by lia.
  destruct (Z.eqb_spec idx (-1)); [lia|].
  unfold zmalloc_entry.
  set (st3 := set_brk _ _).
  change (table (ht (dct st3) 0)) with (Z.pos (brk st0)).
  assert (Harr3 : arrays st3 !! Z.pos (brk st0) = Some [0; 0; 0; 0]) by exact Harr1.
  rewrite (load_slot_zeros st3 _ idx Harr3) by lia. simpl.
  set (a := Z.pos (brk st0 + _)).
  assert (Hent : entries st3 !! a = Some (DictEntry (junk st1) (junk st1) (junk st1))).
  { unfold st3. simpl. by rewrite lookup_insert_eq. }
  rewrite (load_entry_ok st3 a _ ltac:(done) Hent). simpl.
  rewrite (store_entry_ok st3 a _ _ ltac:(done) Hent). simpl.
  set (st4 := set_entries _ _).
  change (table (ht (dct st4) 0)) with (Z.pos (brk st0)).
  assert (Harr4 : arrays st4 !! Z.pos (brk st0) = Some [0; 0; 0; 0]) by exact Harr1.
  rewrite (load_slot_zeros st4 _ idx Harr4) by lia. simpl.
  reflexivity.
Qed.

(** C1 fails on the code.  The first insertion into a new dict crashes.
    Into a bucket that is not empty the insertion succeeds and increments
    [used], but the new node is not linked at the head: the bucket still
    points to the old head, the new node is linked behind it and points
    back to it.  The new key is found with its value; the search for an
    absent key of that bucket walks the cycle until the bound. *)
Theorem insertion_not_head_linked :
  (forall ty privDataPtr st0 k v, dictAdd (dictCreate ty privDataPtr st0) k v = Segv)
  /\ find_tables ex_one 11 = Done 0
  /\ ('(s, r) ← dictAdd ex_one 11 110;
      Done (r, arrays s !! 64, entries s !! 256, entries s !! 4096, used (ht0 (dct s))))
     = Done (DICT_OK, Some [0; 0; 0; 256], Some (DictEntry 7 70 4096),
             Some (DictEntry 11 110 256), 2)
  /\ ('(s, _) ← dictAdd ex_one 11 110; '(_, v) ← dictFetchValue s 11; Done v) = Done 110
  /\ ('(s, _) ← dictAdd ex_one 11 110; find_tables s 3) = Exhausted.
Proof. split; [exact dictAdd_fresh_segv|]. vm_compute. done. Qed.

(** C2 fails on the code.  On a dict that holds key 7 with value 70,
    [dictReplace] of that key answers 1, the code of a fresh insert, and
    leaves the value and the destructor log as they were, and so does a
    second [dictReplace]; on the absent key 11 it answers 0 and calls the
    value destructor on the uninitialised value of the new node. *)
Theorem replace_of_present_key_reports_insert :
  dictFetchValue ex_one 7 = Done (ex_one, 70)
  /\ dictReplace ex_one 7 71 = Done (ex_one, 1)
  /\ ('(s, _) ← dictReplace ex_one 7 71; dictReplace s 7 72) = Done (ex_one, 1)
  /\ ('(s, r) ← dictReplace ex_one 11 71; Done (r, val_freed s)) = Done (0, [3735928559]).
Proof. vm_compute. done. Qed.

(** In general: [dictReplace] answers 1 exactly when [dictAddRaw] has
    returned [NULL], that is when the key was present (or the index
    computation failed), and 0 when a node has been added. *)
Lemma dictReplace_return st k v st' r :
  dictReplace st k v = Done (st', r) ->
  (r = 1 /\ dictAddRaw st k = Done (st', 0))
  \/ (r = 0 /\ exists st1 e, dictAddRaw st k = Done (st1, e) /\ e <> 0).
Proof.
  unfold dictReplace. destruct (dictAddRaw st k) as [[st1 e]| | |]; simpl; try done.
  unfold DICT_OK. destruct (Z.eqb_spec e 0) as [->|Hne].
  - intros [= <- <-]. by left.
  - destruct (dictFind st1 k) as [[st2 p]| | |]; simpl; try done.
    destruct (load_entry st2 p) as [aux| | |]; simpl; try done.
    destruct (dictSetVal st2 p v) as [st3| | |]; simpl; try done.
    intros [= <- <-]. right. split; [done|]. by exists st1, e.
Qed.

(** ** The rehash step and live iterators (C9) *)

(** C9.  While the live-iterator count of a dict is not zero, the
    single-step helper returns the state it was given, and lookup,
    insertion and deletion are their searches on that state, with no
    rehash step before them; the same holds while the dict is not
    rehashing.  The step, one call [dictRehash(d, 1)], is made exactly when
    the count is zero and the dict is rehashing. *)
Theorem rehash_step_gated_by_iterators (st : state) (k : Z) (nofree : bool) :
  (iterators (dct st) <> 0 \/ dictIsRehashing (dct st) = false ->
     (iterators (dct st) <> 0 -> _dictRehashStep st = Done st)
     /\ dictFind st k
        = (if size (ht0 (dct st)) =? 0 then Done (st, 0)
           else r ← find_tables st k; Done (st, r))
     /\ dictAddRaw st k = dictAddRaw_link st k
     /\ dictGenericDelete st k nofree
        = (if size (ht0 (dct st)) =? 0 then Done (st, DICT_ERR)
           else delete_tables st k nofree))
  /\ (iterators (dct st) = 0 -> dictIsRehashing (dct st) = true ->
      let step := '(st1, _) ← dictRehash st 1; Done st1 in
      _dictRehashStep st = step
      /\ dictFind st k
         = (if size (ht0 (dct st)) =? 0 then Done (st, 0)
            else st1 ← step; r ← find_tables st1 k; Done (st1, r))
      /\ dictAddRaw st k = (st1 ← step; dictAddRaw_link st1 k)
      /\ dictGenericDelete st k nofree
         = (if size (ht0 (dct st)) =? 0 then Done (st, DICT_ERR)
            else st1 ← step; delete_tables st1 k nofree)).
Proof.
  split.
  - intros Hgate.
    assert (Hskip : (if dictIsRehashing (dct st) then _dictRehashStep st else Done st)
                    = Done st).
    { destruct Hgate as [Hit| ->]; [|done].
      destruct (dictIsRehashing (dct st)); [|done].
      unfold _dictRehashStep. by rewrite (proj2 (Z.eqb_neq _ _) Hit). }
    split.
    { intros Hit. unfold _dictRehashStep. by rewrite (proj2 (Z.eqb_neq _ _) Hit). }
    unfold dictFind, dictAddRaw, dictGenericDelete. rewrite Hskip. done.
  - intros Hit Hre. simpl.
    unfold dictFind, dictAddRaw, dictGenericDelete. rewrite Hre.
    unfold _dictRehashStep. rewrite Hit. simpl. done.
Qed.

(** With a registered iterator, a lookup in the rehashing example leaves
    the state as it is; without one it migrates a bucket. *)
Lemma rehash_step_gated_by_iterators_witness :
  (iterators (dct ex_iterating) <> 0
   /\ dictFind ex_iterating 3
      = (if size (ht0 (dct ex_iterating)) =? 0 then Done (ex_iterating, 0)
         else r ← find_tables ex_iterating 3; Done (ex_iterating, r)))
  /\ (iterators (dct ex_rehashing) = 0 /\ dictIsRehashing (dct ex_rehashing) = true
      /\ _dictRehashStep ex_rehashing = ('(st1, _) ← dictRehash ex_rehashing 1; Done st1)).
Proof.
  split.
  - split; [simpl; lia|].
    apply (proj1 (rehash_step_gated_by_iterators ex_iterating 3 false)).
    left. simpl. lia.
  - split; [reflexivity|]. split; [reflexivity|].
    apply (proj2 (rehash_step_gated_by_iterators ex_rehashing 3 false)); reflexivity.
Defined.

(** ** Iterators and the fingerprint (C8, C10) *)

(** C10.  The release of an iterator that is still in its initial state
    (table 0, bucket index -1) returns the state it is given: it neither
    compares fingerprints nor decrements the live-iterator count.  So an
    iterator that [dictGetIterator] or [dictGetSafeIterator] made in a
    state [st] is released cleanly in any later state [st']. *)
Theorem release_before_first_advance (st st' : state) (sf e ne fp : Z) :
  dictReleaseIterator st' (DictIterator 0 (-1) sf e ne fp) = Done st'
  /\ dictReleaseIterator st' (dictGetIterator st) = Done st'
  /\ dictReleaseIterator st' (dictGetSafeIterator st) = Done st'.
Proof. done. Qed.

#[local] Arguments dictFingerprint : simpl never.

(** An advance of an unsafe iterator leaves the state alone, takes the
    fingerprint when it is the first one and keeps it afterwards. *)
Lemma dictNext_loop_unsafe (fp0 : Z) (fuel : nat) : forall st it st1 it1 e,
  it_safe it = 0 ->
  -1 <= it_index it < 2 ^ 31 - 1 ->
  (it_initial it -> it_entry it = 0 /\ fp0 = dictFingerprint (dct st)) ->
  (~ it_initial it -> it_fingerprint it = fp0) ->
  dictNext_loop fuel st it = Done (st1, it1, e) ->
  st1 = st /\ it_safe it1 = 0 /\ ~ it_initial it1 /\ it_fingerprint it1 = fp0.
Proof.
  induction fuel as [|fuel IH]; intros st it st1 it1 e Hsafe Hidx Hinit Hfp Hrun; [done|].
  simpl in Hrun.
  assert (Hstep : exists it' stop,
             (if it_entry it =? 0 then dictNext_bucket st it
              else Done (st, set_it_entry it (it_nextEntry it), false))
             = Done (st, it', stop)
             /\ it_safe it' = 0 /\ ~ it_initial it' /\ it_fingerprint it' = fp0
             /\ (stop = false -> -1 <= it_index it' < 2 ^ 31 - 1)).
  { destruct (Z.eqb_spec (it_entry it) 0) as [Hz|Hnz].
    - unfold dictNext_bucket in *. rewrite Hsafe in *. simpl in *.
      rewrite andb_false_r in *. rewrite andb_true_r in *.
      rewrite (wrap_int_small (it_index it + 1)) in * by lia.
      assert (Hfp' : (if (it_index it =? -1) && (it_table it =? 0)
                      then dictFingerprint (dct st) else it_fingerprint it) = fp0).
      { destruct (Z.eqb_spec (it_index it) (-1)) as [H1|H1];
          destruct (Z.eqb_spec (it_table it) 0) as [H2|H2]; simpl.
        - by destruct (Hinit (conj H1 H2)) as [_ ->].
        - apply Hfp. intros [? ?]. done.
        - apply Hfp. intros [? ?]. done.
        - apply Hfp. intros [? ?]. done. }
      rewrite Hfp' in *.
      pose proof (wrap_int_range (size (ht (dct st) (it_table it)))) as Hsz.
      destruct (Z.geb_spec (it_index it + 1) (wrap_int (size (ht (dct st) (it_table it)))))
        as [Hge|Hlt].
      + destruct (dictIsRehashing (dct st) && (it_table it =? 0)) eqn:Hsw.
        * destruct (load_slot st (table (ht1 (dct st))) 0) as [p| | |]; simpl in *; try done.
          apply andb_true_iff in Hsw as [_ Ht0]. apply Z.eqb_eq in Ht0. rewrite Ht0.
          eexists _, false. split; [reflexivity|]. simpl.
          repeat split; try done; try lia. intros [_ H2]; simpl in H2; done.
        * eexists _, true. split; [reflexivity|]. simpl.
          repeat split; try done; try lia. intros [H1 _]; simpl in H1; lia.
      + destruct (load_slot st (table (ht (dct st) (it_table it))) (it_index it + 1))
          as [p| | |]; simpl in *; try done.
        eexists _, false. split; [reflexivity|]. simpl.
        repeat split; try done; try lia. intros [H1 _]; simpl in H1; lia.
    - eexists _, false. split; [reflexivity|]. simpl.
      assert (Hni : ~ it_initial it).
      { intros Hi. by destruct (Hinit Hi). }
      repeat split; try done; try lia. by apply Hfp. }
  destruct Hstep as (it' & stop & Heq & Hs' & Hni' & Hfp' & Hidx').
  rewrite Heq in Hrun. simpl in Hrun.
  destruct stop; [by simplify_eq|].
  destruct (Z.eqb_spec (it_entry it') 0) as [Hz|Hnz]; simpl in Hrun.
  - apply (IH st it' st1 it1 e Hs' (Hidx' eq_refl)); [|by intros _|done].
    intros Hi. by destruct (Hni' Hi).
  - destruct (load_entry st (it_entry it')) as [en| | |]; simpl in Hrun; try done.
    simplify_eq. simpl. done.
Qed.

(** Later advances of an unsafe iterator keep the fingerprint it holds. *)
Lemma dictNext_unsafe_keeps_fingerprint (st st1 : state) (it it1 : dictIterator) (e : Z) :
  it_safe it = 0 -> ~ it_initial it -> -1 <= it_index it < 2 ^ 31 - 1 ->
  dictNext st it = Done (st1, it1, e) ->
  st1 = st /\ it_safe it1 = 0 /\ ~ it_initial it1
  /\ it_fingerprint it1 = it_fingerprint it.
Proof.
  intros Hsafe Hni Hidx Hrun. unfold dictNext in Hrun.
  apply (dictNext_loop_unsafe (it_fingerprint it)) in Hrun; [exact Hrun|assumption..| |].
  - intros Hi. destruct (Hni Hi).
  - intros _. reflexivity.
Qed.

(** The first advance of a safe iterator registers it: the live-iterator
    count goes up by one and nothing else changes; later advances leave
    the state as it is. *)
Lemma dictNext_loop_safe (fuel : nat) : forall st it st1 it1 e,
  it_safe it <> 0 ->
  -1 <= it_index it < 2 ^ 31 - 1 ->
  (it_initial it -> it_entry it = 0) ->
  dictNext_loop fuel st it = Done (st1, it1, e) ->
  ~ it_initial it1
  /\ ((it_initial it
       /\ st1 = set_dct st (set_iterators (dct st) (wrap_int (iterators (dct st) + 1))))
      \/ (~ it_initial it /\ st1 = st)).
Proof.
  induction fuel as [|fuel IH]; intros st it st1 it1 e Hsafe Hidx Hinit Hrun; [done|].
  simpl in Hrun.
  set (st' := if (it_index it =? -1) && (it_table it =? 0)
              then set_dct st (set_iterators (dct st) (wrap_int (iterators (dct st) + 1)))
              else st).
  assert (Hst' : (it_initial it /\ st' = set_dct st (set_iterators (dct st)
                                             (wrap_int (iterators (dct st) + 1))))
                 \/ (~ it_initial it /\ st' = st)).
  { unfold st', it_initial.
    destruct (Z.eqb_spec (it_index it) (-1)); destruct (Z.eqb_spec (it_table it) 0); simpl;
      [by left|right; split; [intros [? ?]; done|done]..]. }
  assert (Hstep : exists st2 it' stop,
             (if it_entry it =? 0 then dictNext_bucket st it
              else Done (st, set_it_entry it (it_nextEntry it), false))
             = Done (st2, it', stop)
             /\ it_safe it' = it_safe it /\ ~ it_initial it'
             /\ (stop = false -> -1 <= it_index it' < 2 ^ 31 - 1)
             /\ ((it_initial it /\ st2 = set_dct st (set_iterators (dct st)
                                             (wrap_int (iterators (dct st) + 1))))
                 \/ (~ it_initial it /\ st2 = st))).
  { destruct (Z.eqb_spec (it_entry it) 0) as [Hz|Hnz].
    - unfold dictNext_bucket in *.
      rewrite (proj2 (Z.eqb_neq _ _) Hsafe) in *. simpl negb in *.
      rewrite andb_true_r in *. fold st' in Hrun |- *.
      rewrite (wrap_int_small (it_index it + 1)) in * by lia.
      pose proof (wrap_int_range (size (ht (dct st') (it_table it)))) as Hsz.
      destruct (Z.geb_spec (it_index it + 1) (wrap_int (size (ht (dct st') (it_table it)))))
        as [Hge|Hlt].
      + destruct (dictIsRehashing (dct st') && (it_table it =? 0)) eqn:Hsw.
        * destruct (load_slot st' (table (ht1 (dct st'))) 0) as [p| | |];
            simpl in Hrun |- *; try done.
          apply andb_true_iff in Hsw as [_ Ht0]. apply Z.eqb_eq in Ht0. rewrite Ht0.
          eexists _, _, false. split; [reflexivity|]. simpl.
          repeat split; try done; try lia. intros [_ H2]; simpl in H2; done.
        * eexists _, _, true. split; [reflexivity|]. simpl.
          repeat split; try done; try lia. intros [H1 _]; simpl in H1; lia.
      + destruct (load_slot st' (table (ht (dct st') (it_table it))) (it_index it + 1))
          as [p| | |]; simpl in Hrun |- *; try done.
        eexists _, _, false. split; [reflexivity|]. simpl.
        repeat split; try done; try lia. intros [H1 _]; simpl in H1; lia.
    - assert (Hni : ~ it_initial it).
      { intros Hi. by destruct (Hnz (Hinit Hi)). }
      eexists _, _, false. split; [reflexivity|]. simpl.
      repeat split; try done; try lia. by right. }
  destruct Hstep as (st2 & it' & stop & Heq & Hs' & Hni' & Hidx' & Hst2).
  rewrite Heq in Hrun. simpl in Hrun.
  destruct stop; [by simplify_eq|].
  destruct (Z.eqb_spec (it_entry it') 0) as [Hz|Hnz]; simpl in Hrun.
  - assert (Hsafe' : it_safe it' <> 0) by (by rewrite Hs').
    assert (Hinit' : it_initial it' -> it_entry it' = 0) by (intros Hi; by destruct (Hni' Hi)).
    destruct (IH st2 it' st1 it1 e Hsafe' (Hidx' eq_refl) Hinit' Hrun) as (Hni1 & Hcase).
    split; [done|]. destruct Hcase as [[Hi _]|[_ ->]]; [by destruct (Hni' Hi)|done].
  - destruct (load_entry st2 (it_entry it')) as [en| | |]; simpl in Hrun; try done.
    simplify_eq. simpl. done.
Qed.

Lemma dictNext_safe_registers (st st1 : state) (it1 : dictIterator) (e : Z) :
  dictNext st (dictGetSafeIterator st) = Done (st1, it1, e) ->
  st1 = set_dct st (set_iterators (dct st) (wrap_int (iterators (dct st) + 1))).
Proof.
  intros Hrun. unfold dictNext in Hrun.
  apply dictNext_loop_safe in Hrun as (_ & [[_ ->]|[Hni _]]).
  - reflexivity.
  - destruct Hni. split; reflexivity.
  - simpl. lia.
  - change (it_index (dictGetSafeIterator st)) with (-1). lia.
  - intros _. reflexivity.
Qed.




(** After an advance the same deletion is detected. *)
Lemma unsafe_iterator_detects_delete :
  dictNext ex_one (dictGetIterator ex_one) = Done (ex_one, ex_one_iterator, 256)
  /\ dictReleaseIterator ex_one_deleted ex_one_iterator = Aborted
  /\ dictReleaseIterator (fst (dictExpand ex_one 8)) ex_one_iterator = Aborted.
Proof. vm_compute. done. Qed.

(** ** Cursor scan (C5) *)

(** C5 fails on the code.  Left alone, the sparse table is scanned
    completely.  But when, after the first call has returned cursor 16,
    the table starts shrinking from 32 to 4 buckets, the scan goes on
    through the cursors 16, 2, 1 and 3 and ends with cursor 0 without ever
    handing the entry at 256 (key 8) to the callback, an entry that is in
    the dict the whole time. *)
Theorem scan_misses_entry_when_shrinking :
  scan_until_zero 64 ex_sparse 0 [] = Done [256; 280]
  /\ find_tables ex_sparse 8 = Done 256
  /\ dictScan ex_sparse 0 = Done ([], 16)
  /\ dictResize ex_sparse = (ex_sparse_shrinking, DICT_OK)
  /\ find_tables ex_sparse_shrinking 8 = Done 256
  /\ dictScan ex_sparse_shrinking 16 = Done ([], 2)
  /\ dictScan ex_sparse_shrinking 2 = Done ([], 1)
  /\ dictScan ex_sparse_shrinking 1 = Done ([280], 3)
  /\ dictScan ex_sparse_shrinking 3 = Done ([], 0)
  /\ scan_until_zero 64 ex_sparse_shrinking 16 [] = Done [280].
Proof. vm_compute. done. Qed.
